(** * DrumKitz: the peak detector and the slicer of [src/utils/audioProcessing.ts]

    A shallow embedding of [calculateRMS], [detectPeaks] and [sliceAudio],
    and the properties of the detector and of the slicer that hold on it.
    With them, the export of the segments in the [ProcessingOptions]
    component: the WAV encoder [audioBufferToWav], [writeString], and the
    loop of [processAudio] that slices and encodes each segment.

    Numbers.  Every JavaScript number is an IEEE 754 binary64 value.
    - Sample values, windowed RMS energies, the threshold and the amplitude of
      a segment are kept as binary64: Rocq's primitive [float], whose
      operations are the processor's and are specified by [FloatAxioms].
    - Array indices, lengths, sample counts and the sample rate are integers
      far below 2^53, on which binary64 arithmetic is exact: they are [Z].
    - The duration constants (0.05, 0.025, 0.2, 0.005) are exact rationals
      [Q].  The sample counts [Math.floor(constant * sampleRate)] computed in
      binary64 are compared with the exact ones at the standard rates
      ([standardRates_sameCounts]).
    - A time [index / sampleRate] of a segment is kept as the exact quotient,
      which records the index; [number64] is the binary64 quotient, the
      number that the code holds.  Where the code computes with times, in
      [sliceAudio] and in sums and differences of the times of segments, the
      numbers are binary64. *)

From Stdlib Require Import Ascii String DecimalString DecimalPos DecimalZ.
From Stdlib Require Import ZArith QArith Qround Lqa List Bool Lia.
From Stdlib Require Import Floats.
Import ListNotations.

Local Open Scope Z_scope.

(** ** The platform: exceptions, typed arrays, [Math], [AudioBuffer] *)

(** The exceptions the Web Audio calls of the file can throw, and the
    [RangeError] that the slicer's contract speaks of. *)
Inductive Exception : Set :=
| IndexSizeError
| NotSupportedError
| RangeError.

(** A computation that returns a value or throws: an [async] function, whose
    promise resolves or rejects. *)
Inductive Result (A : Type) : Type :=
| Ok (a : A)
| Throw (e : Exception).
Arguments Ok {A} a.
Arguments Throw {A} e.

Definition bind {A B : Type} (c : Result A) (k : A -> Result B) : Result B :=
  match c with
  | Ok a => k a
  | Throw e => Throw e
  end.

Notation "x <- c ;; k" := (bind c (fun x => k))
  (at level 61, c at next level, right associativity).

Module JS.

(** An integer-valued number in float arithmetic ([end - start] in
    [sum / (end - start)]).  Exact for every count below 2^53. *)
Definition of_Z (z : Z) : float :=
  match z with
  | Z0 => zero
  | Zpos _ => of_uint63 (Uint63.of_Z z)
  | Zneg p => (- of_uint63 (Uint63.of_Z (Zpos p)))%float
  end.

(** [data[i]] on a [Float32Array]: [undefined] outside the array. *)
Definition get (data : list float) (i : Z) : option float :=
  if i <? 0 then None else nth_error data (Z.to_nat i).

(** [ToNumber]: [undefined] becomes [NaN]. *)
Definition toNumber (v : option float) : float :=
  match v with
  | Some x => x
  | None => nan
  end.

(** [data.length]. *)
Definition length (data : list float) : Z := Z.of_nat (List.length data).

(** The array with element [i] replaced; unchanged when there is no such
    element. *)
Fixpoint update {A : Type} (l : list A) (i : nat) (v : A) : list A :=
  match l, i with
  | [], _ => []
  | _ :: rest, O => v :: rest
  | x :: rest, S i' => x :: update rest i' v
  end.

(** [data[i] = v] on a [Float32Array]: a store outside the array is ignored,
    and the value is converted to a number.  (The values stored here were
    read from a [Float32Array], so the conversion to single precision leaves
    them as they are.) *)
Definition set (data : list float) (i : Z) (v : option float) : list float :=
  if i <? 0 then data else update data (Z.to_nat i) (toNumber v).

(** [Math.max] on two numbers: [NaN] if either is, and [+0] above [-0]. *)
Definition Math_max (a b : float) : float :=
  if is_nan a || is_nan b then nan
  else if (a <? b)%float then b
  else if (b <? a)%float then a
  else if get_sign a then b else a.

(** [Math.floor] of a number: an integer, or nothing where the number is NaN
    or an infinity, which [Math.floor] returns as it is.  A finite number is
    [m * 2 ^ e], negated when the sign is set. *)
Definition Math_floor (x : float) : option Z :=
  match Prim2SF x with
  | S754_zero _ => Some 0
  | S754_finite s m e => Some (Z.shiftl (if s then Zneg m else Zpos m) e)
  | _ => None
  end.

(** [data[base + i]], where [base] is what [Math.floor] returned and [i] is
    an index: [undefined] when the sum is no index of the array, as it is
    when [base] is NaN or an infinity.  (Wherever the sum can be an index it
    is below 2^53, and the addition is exact.) *)
Definition getFrom (data : list float) (base : option Z) (i : Z) : option float :=
  match base with
  | Some b => get data (b + i)
  | None => None
  end.

End JS.

(** An [AudioBuffer]: a sample rate and the samples of each channel. *)
Record AudioBuffer : Type := {
  sampleRate : Z;
  channels : list (list float)
}.

Definition numberOfChannels (b : AudioBuffer) : Z :=
  Z.of_nat (List.length (channels b)).

(** [audioBuffer.getChannelData(channel)]: throws [IndexSizeError] when there
    is no such channel. *)
Definition getChannelData (b : AudioBuffer) (channel : Z) : Result (list float) :=
  if channel <? 0 then Throw IndexSizeError
  else match nth_error (channels b) (Z.to_nat channel) with
       | Some data => Ok data
       | None => Throw IndexSizeError
       end.

(** The array that [getChannelData] returns is the buffer's own: a store
    into it changes the buffer.  [setChannelData b channel data] is the buffer
    once the channel's array holds [data]. *)
Definition setChannelData (b : AudioBuffer) (channel : Z) (data : list float)
  : AudioBuffer :=
  {| sampleRate := sampleRate b;
     channels := if channel <? 0 then channels b
                 else JS.update (channels b) (Z.to_nat channel) data |}.

(** The conversion of an argument to [unsigned long], on what [Math.floor]
    returned: NaN and the infinities become 0, and an integer is kept modulo
    2^32. *)
Definition toUnsignedLong (x : option Z) : Z :=
  match x with
  | Some z => z mod 2 ^ 32
  | None => 0
  end.

(** [new AudioContext().createBuffer(numberOfChannels, length, sampleRate)]:
    a buffer of silence; throws [NotSupportedError] when there is no channel,
    no frame, or no positive rate.  (The upper limits of an implementation
    are not modelled.) *)
Definition createBuffer (numberOfChannels length sampleRate : Z)
  : Result AudioBuffer :=
  if (numberOfChannels <? 1) || (length <? 1) || (sampleRate <=? 0)
  then Throw NotSupportedError
  else Ok {| sampleRate := sampleRate;
             channels := repeat (repeat zero (Z.to_nat length))
                           (Z.to_nat numberOfChannels) |}.

(** ** [audioProcessing.ts] *)

(** The times of a [Peak] are quotients [index / sampleRate].  They are kept
    as the exact quotient, the fraction [index # sampleRate], which records
    the index; the number that the code holds is the binary64 quotient,
    [number64].  The exact quotients serve the comparison of two times, whose
    order rounding keeps, and the statements on indices; a sum, a difference
    or a product of times is made on the binary64 numbers. *)
Record Peak : Type := {
  start : Q;
  end_ : Q;
  amplitude : float
}.

Definition number64 (time : Q) : float :=
  (JS.of_Z (Qnum time) / JS.of_Z (Zpos (Qden time)))%float.

(** Constants for peak detection. *)
Definition MIN_PEAK_DISTANCE : Q := 5 # 100.
Definition PRE_PEAK_BUFFER : Q := 25 # 1000.
Definition POST_PEAK_BUFFER : Q := 5 # 100.
Definition MIN_SEGMENT_DURATION : Q := 5 # 100.
Definition MAX_SEGMENT_DURATION : Q := 2 # 10.
Definition RMS_WINDOW : Q := 5 # 1000.

(** [Math.floor(c * sampleRate)]. *)
Definition toSamples (c : Q) (sampleRate : Z) : Z :=
  Qfloor (c * inject_Z sampleRate).

(** The summation loop of [calculateRMS],
    [for (let i = start; i < end; i++) sum += data[i] * data[i]],
    with [n] iterations left. *)
Fixpoint sumSquares (data : list float) (i : Z) (n : nat) (sum : float) : float :=
  match n with
  | O => sum
  | S n' =>
      let x := JS.toNumber (JS.get data i) in
      sumSquares data (i + 1) n' (sum + x * x)%float
  end.

Definition calculateRMS (data : list float) (start length : Z) : float :=
  let end_ := Z.min (start + length) (JS.length data) in
  let sum := sumSquares data start (Z.to_nat (end_ - start)) zero in
  sqrt (sum / JS.of_Z (end_ - start))%float.

(** The local variables of [detectPeaks] that the loop updates. *)
Record DetectorState : Type := {
  lastPeakIndex : Z;
  isInPeak : bool;
  peakStartIndex : Z;
  maxAmplitude : float;
  peaks : list Peak
}.

Section DetectPeaks.

Variable data : list float.
Variable sampleRate : Z.
Variable threshold : float.

(** Convert time-based constants to samples. *)
Definition minPeakDistanceSamples : Z := toSamples MIN_PEAK_DISTANCE sampleRate.
Definition prePeakBufferSamples : Z := toSamples PRE_PEAK_BUFFER sampleRate.
Definition postPeakBufferSamples : Z := toSamples POST_PEAK_BUFFER sampleRate.
Definition minSegmentSamples : Z := toSamples MIN_SEGMENT_DURATION sampleRate.
Definition maxSegmentSamples : Z := toSamples MAX_SEGMENT_DURATION sampleRate.

(** Window size for RMS calculation (about 5ms). *)
Definition rmsWindowSize : Z := toSamples RMS_WINDOW sampleRate.

(** [{ start: peakStartIndex / sampleRate, end: peakEndIndex / sampleRate,
    amplitude: maxAmplitude }]. *)
Definition mkPeak (peakStartIndex peakEndIndex : Z) (maxAmplitude : float) : Peak :=
  {| start := inject_Z peakStartIndex / inject_Z sampleRate;
     end_ := inject_Z peakEndIndex / inject_Z sampleRate;
     amplitude := maxAmplitude |}.

Definition initialState : DetectorState :=
  {| lastPeakIndex := - minPeakDistanceSamples;
     isInPeak := false;
     peakStartIndex := 0;
     maxAmplitude := zero;
     peaks := [] |}.

(** One iteration of the [for] loop, at index [i], once the window's [rms]
    is known. *)
Definition step (st : DetectorState) (i : Z) (rms : float) : DetectorState :=
  if (threshold <? rms)%float && negb (isInPeak st)
     && (minPeakDistanceSamples <=? i - lastPeakIndex st) then
    (* Start of a new peak *)
    {| lastPeakIndex := lastPeakIndex st;
       isInPeak := true;
       (* Include pre-peak buffer, but don't go before the last peak *)
       peakStartIndex :=
         Z.max (i - prePeakBufferSamples) (lastPeakIndex st + minPeakDistanceSamples);
       maxAmplitude := rms;
       peaks := peaks st |}
  else if (threshold <? rms)%float && isInPeak st then
    (* Update maximum amplitude if we're in a peak *)
    {| lastPeakIndex := lastPeakIndex st;
       isInPeak := true;
       peakStartIndex := peakStartIndex st;
       maxAmplitude := JS.Math_max (maxAmplitude st) rms;
       peaks := peaks st |}
  else if (rms <=? threshold)%float && isInPeak st then
    (* End of peak detected *)
    (* Calculate end index with post-peak buffer *)
    let peakEndIndex := Z.min (i + postPeakBufferSamples) (JS.length data) in
    (* Ensure minimum segment duration *)
    let peakEndIndex :=
      if peakEndIndex - peakStartIndex st <? minSegmentSamples
      then peakStartIndex st + minSegmentSamples else peakEndIndex in
    (* Enforce maximum segment duration *)
    let peakEndIndex :=
      if maxSegmentSamples <? peakEndIndex - peakStartIndex st
      then peakStartIndex st + maxSegmentSamples else peakEndIndex in
    (* Add peak if it meets duration requirements *)
    if minSegmentSamples <=? peakEndIndex - peakStartIndex st then
      {| lastPeakIndex := peakEndIndex;
         isInPeak := false;
         peakStartIndex := peakStartIndex st;
         maxAmplitude := maxAmplitude st;
         peaks := peaks st
                  ++ [mkPeak (peakStartIndex st) peakEndIndex (maxAmplitude st)] |}
    else
      {| lastPeakIndex := lastPeakIndex st;
         isInPeak := false;
         peakStartIndex := peakStartIndex st;
         maxAmplitude := maxAmplitude st;
         peaks := peaks st |}
  else st.

(** [for (let i = 0; i < data.length; i++)], with [n] iterations left. *)
Fixpoint loop (n : nat) (i : Z) (st : DetectorState) : DetectorState :=
  match n with
  | O => st
  | S n' => loop n' (i + 1) (step st i (calculateRMS data i rmsWindowSize))
  end.

(** Handle case where we're still in a peak at the end of the file. *)
Definition flush (st : DetectorState) : list Peak :=
  if isInPeak st then
    let peakEndIndex :=
      Z.min (JS.length data) (peakStartIndex st + maxSegmentSamples) in
    if minSegmentSamples <=? peakEndIndex - peakStartIndex st then
      peaks st ++ [mkPeak (peakStartIndex st) peakEndIndex (maxAmplitude st)]
    else peaks st
  else peaks st.

(** The detector on the samples of one channel: the loop from the initial
    state, then the flush. *)
Definition detect : list Peak :=
  flush (loop (List.length data) 0 initialState).

End DetectPeaks.

(** The default of the [threshold] parameter, [0.1]. *)
Definition defaultThreshold : float := 0x1.999999999999ap-4%float.

Definition detectPeaks (audioBuffer : AudioBuffer) (threshold : float)
  : Result (list Peak) :=
  data <- getChannelData audioBuffer 0 ;;
  Ok (detect data (sampleRate audioBuffer) threshold).

(** The inner loop of [sliceAudio],
    [for (let i = 0; i < sampleDuration; i++)
       newChannelData[i] = channelData[sampleStart + i]],
    with [n] iterations left. *)
Fixpoint copySamples (channelData newChannelData : list float)
    (sampleStart : option Z) (i : Z) (n : nat) : list float :=
  match n with
  | O => newChannelData
  | S n' =>
      copySamples channelData
        (JS.set newChannelData i (JS.getFrom channelData sampleStart i))
        sampleStart (i + 1) n'
  end.

(** The outer loop of [sliceAudio], over the channels, with [n] iterations
    left. *)
Fixpoint copyChannels (audioBuffer newBuffer : AudioBuffer)
    (sampleStart : option Z) (sampleDuration channel : Z) (n : nat)
  : Result AudioBuffer :=
  match n with
  | O => Ok newBuffer
  | S n' =>
      channelData <- getChannelData audioBuffer channel ;;
      newChannelData <- getChannelData newBuffer channel ;;
      copyChannels audioBuffer
        (setChannelData newBuffer channel
           (copySamples channelData newChannelData sampleStart 0
              (Z.to_nat sampleDuration)))
        sampleStart sampleDuration (channel + 1) n'
  end.

(** [start], [end], their difference and the two products are binary64
    numbers.  A duration that [Math.floor] leaves NaN or infinite reaches
    [createBuffer] as a length of 0 and is refused there, before the
    loops.  The counters of the loops are integers below 2^53, on which
    [i++] is exact. *)
Definition sliceAudio (audioBuffer : AudioBuffer) (start end_ : float)
  : Result AudioBuffer :=
  let duration := (end_ - start)%float in
  let sampleStart :=
    JS.Math_floor (start * JS.of_Z (sampleRate audioBuffer)) in
  let sampleDuration :=
    JS.Math_floor (duration * JS.of_Z (sampleRate audioBuffer)) in
  newBuffer <- createBuffer (numberOfChannels audioBuffer)
                 (toUnsignedLong sampleDuration) (sampleRate audioBuffer) ;;
  copyChannels audioBuffer newBuffer sampleStart
    (match sampleDuration with Some d => d | None => 0 end) 0
    (Z.to_nat (numberOfChannels audioBuffer)).

(** ** The export: the [ProcessingOptions] component

    [processAudio] detects the segments, slices each one out of the buffer,
    encodes it with [audioBufferToWav] and adds it to a folder of a zip
    archive. *)

(** *** Numbers, strings and [DataView] *)

(** [Math.min] on two numbers: [NaN] if either is, and [-0] below [+0]. *)
Definition Math_min (a b : float) : float :=
  if is_nan a || is_nan b then nan
  else if (a <? b)%float then a
  else if (b <? a)%float then b
  else if get_sign a then a else b.

(** The integer part of a number, toward zero; 0 for NaN and the
    infinities (the first steps of [ToInt16] and its kin). *)
Definition truncate (x : float) : Z :=
  match Prim2SF x with
  | S754_finite s m e =>
      let magnitude := Z.shiftl (Zpos m) e in
      if s then - magnitude else magnitude
  | _ => 0
  end.

(** [string.charCodeAt(i)], [NaN] past the end of the string.  (The
    characters here are those of one byte.) *)
Definition charCodeAt (s : string) (i : Z) : option Z :=
  if i <? 0 then None
  else option_map (fun c => Z.of_N (N_of_ascii c)) (String.get (Z.to_nat i) s).


(** A [DataView] over an [ArrayBuffer]: the bytes, each from 0 to 255.  The
    setters and getters are the little-endian ones (the source passes [true]),
    and throw [RangeError] when the bytes do not lie inside the buffer. *)
Module DataView.

Definition byteLength (view : list Z) : Z := Z.of_nat (List.length view).

(** The [size] bytes of [value], least significant first. *)
Fixpoint littleEndian (size : nat) (value : Z) : list Z :=
  match size with
  | O => []
  | S size' => value mod 256 :: littleEndian size' (value / 256)
  end.

(** The value of bytes, least significant first. *)
Fixpoint fromLittleEndian (bytes : list Z) : Z :=
  match bytes with
  | [] => 0
  | b :: rest => b + 256 * fromLittleEndian rest
  end.

Fixpoint store (view : list Z) (offset : nat) (bytes : list Z) : list Z :=
  match bytes with
  | [] => view
  | b :: rest => store (JS.update view offset b) (S offset) rest
  end.

(** Store the integer [value], modulo [2 ^ (8 * size)], at [offset]. *)
Definition set (view : list Z) (offset : Z) (size : nat) (value : Z)
  : Result (list Z) :=
  if (offset <? 0) || (byteLength view <? offset + Z.of_nat size)
  then Throw RangeError
  else Ok (store view (Z.to_nat offset)
             (littleEndian size (value mod 2 ^ (8 * Z.of_nat size)))).

Definition setUint8 (view : list Z) (offset value : Z) := set view offset 1 value.
Definition setUint16 (view : list Z) (offset value : Z) := set view offset 2 value.
Definition setUint32 (view : list Z) (offset value : Z) := set view offset 4 value.

(** [setInt16] of a number: [ToInt16] truncates it and keeps it modulo 2^16,
    in two's complement. *)
Definition setInt16 (view : list Z) (offset : Z) (value : float) :=
  set view offset 2 (truncate value).

(** The unsigned integer of [size] bytes at [offset]. *)
Definition get (view : list Z) (offset : Z) (size : nat) : Result Z :=
  if (offset <? 0) || (byteLength view <? offset + Z.of_nat size)
  then Throw RangeError
  else Ok (fromLittleEndian (firstn size (skipn (Z.to_nat offset) view))).

Definition getUint8 (view : list Z) (offset : Z) := get view offset 1.
Definition getUint16 (view : list Z) (offset : Z) := get view offset 2.
Definition getUint32 (view : list Z) (offset : Z) := get view offset 4.

(** The signed reading of 16 bits, in two's complement. *)
Definition toInt16 (unsigned : Z) : Z :=
  if 2 ^ 15 <=? unsigned then unsigned - 2 ^ 16 else unsigned.

Definition getInt16 (view : list Z) (offset : Z) : Result Z :=
  unsigned <- get view offset 2 ;;
  Ok (toInt16 unsigned).

End DataView.

(** [buffer.length]: the number of sample frames, which every channel
    holds. *)
Definition frames (buffer : AudioBuffer) : Z :=
  match channels buffer with
  | [] => 0
  | channelData :: _ => JS.length channelData
  end.

(** *** [writeString] and [audioBufferToWav] *)

(** The loop of [writeString],
    [for (let i = 0; i < string.length; i++)
       view.setUint8(offset + i, string.charCodeAt(i))],
    with [n] iterations left. *)
Fixpoint writeStringFrom (view : list Z) (offset : Z) (s : string) (i : Z) (n : nat)
  : Result (list Z) :=
  match n with
  | O => Ok view
  | S n' =>
      view <- DataView.setUint8 view (offset + i)
                (match charCodeAt s i with Some c => c | None => 0 end) ;;
      writeStringFrom view offset s (i + 1) n'
  end.

Definition writeString (view : list Z) (offset : Z) (s : string) : Result (list Z) :=
  writeStringFrom view offset s 0 (String.length s).

(** [for (let i = 0; i < buffer.numberOfChannels; i++)
      channels.push(buffer.getChannelData(i))], with [n] iterations left. *)
Fixpoint pushChannels (buffer : AudioBuffer) (channels : list (list float))
    (i : Z) (n : nat) : Result (list (list float)) :=
  match n with
  | O => Ok channels
  | S n' =>
      channelData <- getChannelData buffer i ;;
      pushChannels buffer (channels ++ [channelData]) (i + 1) n'
  end.

(** [Math.max(-1, Math.min(1, x))], then the scaling to 16 bits. *)
Definition scaleSample (x : option float) : float :=
  let sample := JS.Math_max (-1) (Math_min 1 (JS.toNumber x)) in
  if (sample <? 0)%float then (sample * 0x8000)%float else (sample * 0x7FFF)%float.

(** [channels[i][pos]]; [channels[i]] is there for every [i] below
    [numberOfChannels]. *)
Definition sampleAt (channels : list (list float)) (i pos : Z) : option float :=
  if i <? 0 then None
  else match nth_error channels (Z.to_nat i) with
       | Some channelData => JS.get channelData pos
       | None => None
       end.

(** The inner loop of [audioBufferToWav], over the channels of one frame,
    with [n] iterations left. *)
Fixpoint writeFrame (view : list Z) (channels : list (list float))
    (pos offset i : Z) (n : nat) : Result (list Z * Z) :=
  match n with
  | O => Ok (view, offset)
  | S n' =>
      let sample := scaleSample (sampleAt channels i pos) in
      view <- DataView.setInt16 view offset sample ;;
      writeFrame view channels pos (offset + 2) (i + 1) n'
  end.

(** The outer loop, [while (pos < buffer.length)], with [n] iterations
    left. *)
Fixpoint writeFrames (view : list Z) (channels : list (list float))
    (numberOfChannels pos offset : Z) (n : nat) : Result (list Z) :=
  match n with
  | O => Ok view
  | S n' =>
      r <- writeFrame view channels pos offset 0 (Z.to_nat numberOfChannels) ;;
      writeFrames (fst r) channels numberOfChannels (pos + 1) (snd r) n'
  end.

(** Helper function to convert AudioBuffer to WAV blob: the bytes of the
    blob.  (The size that an [ArrayBuffer] may have is not limited here.) *)
Definition audioBufferToWav (buffer : AudioBuffer) : Result (list Z) :=
  let numberOfChannels := numberOfChannels buffer in
  let length := frames buffer * numberOfChannels * 2 in
  let view := repeat 0 (Z.to_nat (44 + length)) in
  (* Write WAV header *)
  view <- writeString view 0 "RIFF" ;;
  view <- DataView.setUint32 view 4 (36 + length) ;;
  view <- writeString view 8 "WAVE" ;;
  view <- writeString view 12 "fmt " ;;
  view <- DataView.setUint32 view 16 16 ;;
  view <- DataView.setUint16 view 20 1 ;;
  view <- DataView.setUint16 view 22 numberOfChannels ;;
  view <- DataView.setUint32 view 24 (sampleRate buffer) ;;
  view <- DataView.setUint32 view 28 (sampleRate buffer * 2 * numberOfChannels) ;;
  view <- DataView.setUint16 view 32 (numberOfChannels * 2) ;;
  view <- DataView.setUint16 view 34 16 ;;
  view <- writeString view 36 "data" ;;
  view <- DataView.setUint32 view 40 length ;;
  (* Write audio data *)
  channels <- pushChannels buffer [] 0 (Z.to_nat numberOfChannels) ;;
  writeFrames view channels numberOfChannels 0 44 (Z.to_nat (frames buffer)).

(** *** [processAudio] *)




(** ** The vocabulary of the properties *)

(** [q] starts no earlier than the exclusion gap after the end of [p]. *)
Definition separated (sampleRate : Z) (p q : Peak) : Prop :=
  (end_ p + inject_Z (minPeakDistanceSamples sampleRate) / inject_Z sampleRate
   <= start q)%Q.

(** The duration of [p], counted in samples, lies between the two duration
    constants converted to samples. *)
Definition withinBounds (sampleRate : Z) (p : Peak) : Prop :=
  (inject_Z (minSegmentSamples sampleRate) <= (end_ p - start p) * inject_Z sampleRate
   /\ (end_ p - start p) * inject_Z sampleRate
      <= inject_Z (maxSegmentSamples sampleRate))%Q.

(** Every two neighbours of the list are related by [R]. *)
Definition neighbours {A : Type} (R : A -> A -> Prop) (l : list A) : Prop :=
  forall i p q, nth_error l i = Some p -> nth_error l (S i) = Some q -> R p q.

(** What the loop maintains about the segments closed so far: they end by
    [lastPeakIndex], an open peak starts past the exclusion gap, neighbours
    are separated, and durations are within bounds. *)
Record Inv (sampleRate : Z) (st : DetectorState) : Prop := {
  inv_ends :
    Forall (fun p => (end_ p <= inject_Z (lastPeakIndex st) / inject_Z sampleRate)%Q)
      (peaks st);
  inv_start :
    isInPeak st = true ->
    lastPeakIndex st + minPeakDistanceSamples sampleRate <= peakStartIndex st;
  inv_gap : neighbours (separated sampleRate) (peaks st);
  inv_bounds : Forall (withinBounds sampleRate) (peaks st)
}.

(** What the loop maintains about amplitudes: the running maximum of an open
    peak and the amplitude of every closed segment are above the threshold. *)
Record Loud (threshold : float) (st : DetectorState) : Prop := {
  loud_current : isInPeak st = true -> (threshold <? maxAmplitude st)%float = true;
  loud_peaks : Forall (fun p => (threshold <? amplitude p)%float = true) (peaks st)
}.

(** The RMS of every window of the buffer is above the threshold. *)
Definition everyWindowAbove (data : list float) (sampleRate : Z) (threshold : float)
  : Prop :=
  forall i, 0 <= i < JS.length data ->
    (threshold <? calculateRMS data i (rmsWindowSize sampleRate))%float = true.

(** The state of a detector that entered a peak at index 0, is still in it,
    and has closed no segment. *)
Definition inPeakFromStart (sampleRate : Z) (amp : float) : DetectorState :=
  {| lastPeakIndex := - minPeakDistanceSamples sampleRate;
     isInPeak := true;
     peakStartIndex := 0;
     maxAmplitude := amp;
     peaks := [] |}.

(** The chaining described for a threshold at or below zero: several
    segments, each of the maximum length. *)
Definition chainedMaxSegments (sampleRate : Z) (ps : list Peak) : Prop :=
  (2 <= List.length ps)%nat
  /\ Forall (fun p => ((end_ p - start p) * inject_Z sampleRate
                       == inject_Z (maxSegmentSamples sampleRate))%Q) ps.

(** What the copy loop of the slicer leaves in a channel: the sample at
    [sampleStart + i] for each [i] below [sampleDuration], NaN where the
    channel has none. *)
Definition samplesFrom (channelData : list float) (sampleStart sampleDuration : Z)
  : list float :=
  map (fun i => JS.toNumber (JS.get channelData (sampleStart + Z.of_nat i)))
    (seq 0 (Z.to_nat sampleDuration)).

(** *** Binary64 values and counts *)

(** A zero of either sign. *)
Definition isZero (x : spec_float) : Prop :=
  match x with
  | S754_zero _ => True
  | _ => False
  end.

(** A zero of either sign, or NaN. *)
Definition isZeroOrNaN (x : spec_float) : Prop :=
  match x with
  | S754_zero _ | S754_nan => True
  | _ => False
  end.

(** Not negative: a zero of either sign, or something of positive sign. *)
Definition notNegative (x : spec_float) : Prop :=
  match x with
  | S754_zero _ | S754_infinity false | S754_finite false _ _ => True
  | _ => False
  end.

(** [Math.floor] of a finite binary64 number, as an integer: the number is
    [mantissa * 2 ^ exponent], with a mantissa of 53 bits. *)
Definition floorZ (x : float) : Z :=
  let (fraction, e) := frshiftexp x in
  let mantissa := Uint63.to_Z (normfr_mantissa fraction) in
  let mantissa := if get_sign x then - mantissa else mantissa in
  let exponent := Uint63.to_Z e - shift - prec in
  Z.shiftl mantissa exponent.

(** [Math.floor(c * sampleRate)] as the source computes it, in binary64. *)
Definition toSamples64 (c : float) (sampleRate : Z) : Z :=
  floorZ (c * JS.of_Z sampleRate)%float.

(** The binary64 counts for 0.05, 0.025, 0.2 and 0.005 are the exact ones. *)
Definition sameCounts (sampleRate : Z) : bool :=
  (toSamples64 0x1.999999999999ap-5 sampleRate
   =? toSamples MIN_PEAK_DISTANCE sampleRate)
  && (toSamples64 0x1.999999999999ap-6 sampleRate
      =? toSamples PRE_PEAK_BUFFER sampleRate)
  && (toSamples64 0x1.999999999999ap-3 sampleRate
      =? toSamples MAX_SEGMENT_DURATION sampleRate)
  && (toSamples64 0x1.47ae147ae147bp-8 sampleRate
      =? toSamples RMS_WINDOW sampleRate).

Definition standardRates : list Z :=
  [8000; 11025; 12000; 16000; 22050; 24000; 32000; 44100; 48000; 64000;
   88200; 96000; 176400; 192000; 352800; 384000].

(** *** Running the detector on a concrete buffer

    [calculateRMS] reads [data[i]] by index; on a list that is a walk from
    the head at every read.  The same loop can carry the part of the buffer
    that starts at [i], and read the window from its front. *)

Fixpoint sumSquaresFrom (suffix : list float) (n : nat) (sum : float) : float :=
  match n with
  | O => sum
  | S n' =>
      let x := JS.toNumber (hd_error suffix) in
      sumSquaresFrom (tl suffix) n' (sum + x * x)%float
  end.

Definition calculateRMSFrom (size : Z) (suffix : list float) (start length : Z)
  : float :=
  let end_ := Z.min (start + length) size in
  let sum := sumSquaresFrom suffix (Z.to_nat (end_ - start)) zero in
  sqrt (sum / JS.of_Z (end_ - start))%float.

Fixpoint loopFrom (data : list float) (sampleRate : Z) (threshold : float)
    (size window : Z) (suffix : list float) (i : Z) (st : DetectorState)
  : DetectorState :=
  match suffix with
  | [] => st
  | _ :: rest =>
      loopFrom data sampleRate threshold size window rest (i + 1)
        (step data sampleRate threshold st i (calculateRMSFrom size suffix i window))
  end.

(** *** Buffers *)

(** Scenario A: one second at 48000 Hz, silent but for samples 4800..4899
    at 0.5. *)
Definition scenarioAData : list float :=
  repeat zero (Z.to_nat 4800) ++ repeat 0.5%float (Z.to_nat 100)
  ++ repeat zero (Z.to_nat 43100).

Definition scenarioA : AudioBuffer :=
  {| sampleRate := 48000; channels := [scenarioAData] |}.

(** One second of a constant, non-zero signal at 1000 Hz. *)
Definition constantToneData : list float := repeat one (Z.to_nat 1000).

Definition constantTone : AudioBuffer :=
  {| sampleRate := 1000; channels := [constantToneData] |}.

(** Half a second of a constant, non-zero signal at 48000 Hz. *)
Definition halfSecondToneData : list float := repeat one (Z.to_nat 24000).

Definition halfSecondTone : AudioBuffer :=
  {| sampleRate := 48000; channels := [halfSecondToneData] |}.

(** Two bursts of 20 ms, 300 ms apart, at 1000 Hz. *)
Definition twoBurstsData : list float :=
  repeat zero 100 ++ repeat one 20 ++ repeat zero 300 ++ repeat one 20
  ++ repeat zero 300.

Definition twoBursts : AudioBuffer :=
  {| sampleRate := 1000; channels := [twoBurstsData] |}.

(** Silence, with zeros of both signs. *)
Definition silence : AudioBuffer :=
  {| sampleRate := 1000; channels := [repeat zero 300 ++ repeat neg_zero 300] |}.

(** Two channels of four samples at 48000 Hz. *)
Definition fourSamples : AudioBuffer :=
  {| sampleRate := 48000;
     channels := [[1; 2; 3; 4]%float; [5; 6; 7; 8]%float] |}.

(** *** The detected segments *)

(** A segment as the detector builds it: from sample [s] to sample [e], the
    start inside the buffer, the length within bounds, the end inside the
    buffer unless the length is the minimum, and the RMS of a window at or
    after the start as amplitude. *)
Definition built (data : list float) (sampleRate : Z) (p : Peak) : Prop :=
  exists s e j,
    p = mkPeak sampleRate s e (calculateRMS data j (rmsWindowSize sampleRate))
    /\ 0 <= s < JS.length data
    /\ minSegmentSamples sampleRate <= e - s <= maxSegmentSamples sampleRate
    /\ (e <= JS.length data \/ e - s = minSegmentSamples sampleRate)
    /\ s <= j < JS.length data.

(** What the loop maintains about positions and counts, before the
    iteration at index [next]. *)
Record Shape (data : list float) (sampleRate : Z) (next : Z) (st : DetectorState)
  : Prop := {
  shape_last :
    - minPeakDistanceSamples sampleRate <= lastPeakIndex st
    <= JS.length data + minSegmentSamples sampleRate;
  shape_open :
    isInPeak st = true ->
    lastPeakIndex st + minPeakDistanceSamples sampleRate <= peakStartIndex st
    /\ peakStartIndex st < next
    /\ exists j,
         peakStartIndex st <= j < JS.length data
         /\ maxAmplitude st = calculateRMS data j (rmsWindowSize sampleRate);
  shape_peaks : Forall (built data sampleRate) (peaks st);
  shape_count :
    Z.of_nat (List.length (peaks st))
    * (minSegmentSamples sampleRate + minPeakDistanceSamples sampleRate)
    <= lastPeakIndex st + minPeakDistanceSamples sampleRate
}.




(** *** The bytes of a WAV blob *)

(** The character codes of a string. *)
Definition charCodes (s : string) : list Z :=
  map (fun c => Z.of_N (N_of_ascii c)) (list_ascii_of_string s).

Definition uint16 (value : Z) : list Z :=
  DataView.littleEndian 2 (value mod 2 ^ 16).

Definition uint32 (value : Z) : list Z :=
  DataView.littleEndian 4 (value mod 2 ^ 32).

(** The 44 bytes of the header. *)
Definition wavHeader (numberOfChannels sampleRate length : Z) : list Z :=
  charCodes "RIFF" ++ uint32 (36 + length) ++ charCodes "WAVE"
  ++ charCodes "fmt " ++ uint32 16 ++ uint16 1 ++ uint16 numberOfChannels
  ++ uint32 sampleRate ++ uint32 (sampleRate * 2 * numberOfChannels)
  ++ uint16 (numberOfChannels * 2) ++ uint16 16
  ++ charCodes "data" ++ uint32 length.

(** The two bytes of one sample. *)
Definition sampleBytes (x : option float) : list Z :=
  uint16 (truncate (scaleSample x)).

(** The bytes of one frame: the sample of each channel in turn. *)
Definition frameBytes (channels : list (list float)) (pos : Z) : list Z :=
  flat_map (fun channelData => sampleBytes (JS.get channelData pos)) channels.

(** The bytes of the audio data: the frames in turn. *)
Definition wavData (buffer : AudioBuffer) : list Z :=
  flat_map (fun pos => frameBytes (channels buffer) (Z.of_nat pos))
    (seq 0 (Z.to_nat (frames buffer))).

(** *** More buffers *)

(** The first segment of the two bursts. *)
Definition firstBurst : Peak :=
  {| start := 71 # 1000; end_ := 170 # 1000; amplitude := one |}.

(** A burst of 10 ms that ends one sample before the end of the buffer, at
    1000 Hz. *)
Definition lateBurstData : list float :=
  repeat zero 100 ++ repeat one 10 ++ repeat zero 1.

Definition lateBurst : AudioBuffer :=
  {| sampleRate := 1000; channels := [lateBurstData] |}.

(** Its segment: 111 samples in the buffer, and an end at sample 121. *)
Definition lateBurstSegment : Peak :=
  {| start := 71 # 1000; end_ := 121 # 1000; amplitude := one |}.

(** The rational number that a finite binary64 number is: [m * 2 ^ e],
    negated when the sign is set. *)
Definition exactValue (x : float) : Q :=
  match Prim2SF x with
  | S754_finite s m e => inject_Z (if s then Zneg m else Zpos m) * Qpower 2 e
  | _ => 0
  end.

(** A constant signal of 551 samples at 11025 Hz, where
    [Math.floor(0.05 * 11025)] is 551; the detector keeps the whole of it. *)
Definition shortTone : AudioBuffer :=
  {| sampleRate := 11025; channels := [repeat one 551] |}.

Definition shortToneSegment : Peak :=
  {| start := 0 # 11025; end_ := 551 # 11025; amplitude := one |}.

(** Two bursts of 20 ms at 1000 Hz, the second one 110 ms after the first:
    its segment starts at the end of the exclusion gap. *)
Definition closeBurstsData : list float :=
  repeat zero 100 ++ repeat one 20 ++ repeat zero 110 ++ repeat one 20
  ++ repeat zero 300.

Definition closeBursts : AudioBuffer :=
  {| sampleRate := 1000; channels := [closeBurstsData] |}.

Definition secondCloseBurst : Peak :=
  {| start := 220 # 1000; end_ := 300 # 1000; amplitude := one |}.

(** Half a second of a constant signal at 100 Hz. *)
Definition lowRate : AudioBuffer :=
  {| sampleRate := 100; channels := [repeat one 50] |}.

(** Two channels of four samples at 44100 Hz, and the blob of their
    encoding. *)
Definition stereoRamp : AudioBuffer :=
  {| sampleRate := 44100;
     channels := [[0; 0.5; -0.5; 1]%float; [-1; 0.25; 2; -0.25]%float] |}.

Definition stereoRampWav : list Z :=
  [82; 73; 70; 70; 52; 0; 0; 0; 87; 65; 86; 69; 102; 109; 116; 32;
   16; 0; 0; 0; 1; 0; 2; 0; 68; 172; 0; 0; 16; 177; 2; 0; 4; 0; 16; 0;
   100; 97; 116; 97; 16; 0; 0; 0;
   0; 0; 0; 128; 255; 63; 255; 31; 0; 192; 255; 127; 255; 127; 0; 224].

(** The detector's state on the two bursts at index 120, in the first
    peak. *)
Definition insideFirstBurst : DetectorState :=
  {| lastPeakIndex := -50;
     isInPeak := true;
     peakStartIndex := 71;
     maxAmplitude := one;
     peaks := [] |}.

(** ** Sample counts and times *)

Lemma toSamples_nonneg (c : Q) (sampleRate : Z) :
  (0 <= c)%Q -> 0 < sampleRate -> 0 <= toSamples c sampleRate.
Proof.
  intros Hc Hsr. unfold toSamples.
  change 0 with (Qfloor (inject_Z 0)).
  apply Qfloor_resp_le.
  apply Qmult_le_0_compat; [exact Hc|].
  change 0%Q with (inject_Z 0). rewrite <- Zle_Qle. lia.
Qed.

Lemma toSamples_mono (c d : Q) (sampleRate : Z) :
  (c <= d)%Q -> 0 < sampleRate -> toSamples c sampleRate <= toSamples d sampleRate.
Proof.
  intros Hcd Hsr. unfold toSamples.
  apply Qfloor_resp_le, Qmult_le_compat_r; [exact Hcd|].
  change 0%Q with (inject_Z 0). rewrite <- Zle_Qle. lia.
Qed.

(** The floor of [(n/d) * sampleRate] is the integer quotient. *)
Lemma toSamples_quotient (n d : positive) (sampleRate : Z) :
  toSamples (Zpos n # d) sampleRate = (Zpos n * sampleRate) / Zpos d.
Proof.
  unfold toSamples, Qfloor, Qmult, inject_Z; simpl Qnum; simpl Qden.
  rewrite Pos.mul_1_r. reflexivity.
Qed.

Lemma minSegment_le_maxSegment (sampleRate : Z) :
  0 < sampleRate -> minSegmentSamples sampleRate <= maxSegmentSamples sampleRate.
Proof.
  intros Hsr. apply toSamples_mono; [|exact Hsr].
  unfold MIN_SEGMENT_DURATION, MAX_SEGMENT_DURATION, Qle; simpl; lia.
Qed.

Lemma minPeakDistance_nonneg (sampleRate : Z) :
  0 < sampleRate -> 0 <= minPeakDistanceSamples sampleRate.
Proof.
  intros; apply toSamples_nonneg;
    [unfold MIN_PEAK_DISTANCE, Qle; simpl; lia | assumption].
Qed.

Lemma minSegment_nonneg (sampleRate : Z) :
  0 < sampleRate -> 0 <= minSegmentSamples sampleRate.
Proof.
  intros; apply toSamples_nonneg;
    [unfold MIN_SEGMENT_DURATION, Qle; simpl; lia | assumption].
Qed.

Lemma prePeakBuffer_nonneg (sampleRate : Z) :
  0 < sampleRate -> 0 <= prePeakBufferSamples sampleRate.
Proof.
  intros; apply toSamples_nonneg;
    [unfold PRE_PEAK_BUFFER, Qle; simpl; lia | assumption].
Qed.

Section Times.

Variable sampleRate : Z.
Hypothesis sampleRate_pos : 0 < sampleRate.

Lemma rate_pos : (0 < inject_Z sampleRate)%Q.
Proof. change 0%Q with (inject_Z 0). rewrite <- Zlt_Qlt. exact sampleRate_pos. Qed.

Lemma time_le (a b : Z) :
  a <= b -> (inject_Z a / inject_Z sampleRate <= inject_Z b / inject_Z sampleRate)%Q.
Proof.
  intros Hab. apply Qmult_le_compat_r.
  - rewrite <- Zle_Qle. exact Hab.
  - apply Qlt_le_weak, Qinv_lt_0_compat, rate_pos.
Qed.

Lemma time_add (a b : Z) :
  (inject_Z (a + b) / inject_Z sampleRate
   == inject_Z a / inject_Z sampleRate + inject_Z b / inject_Z sampleRate)%Q.
Proof. rewrite inject_Z_plus. unfold Qdiv. ring. Qed.

Lemma time_diff_samples (a b : Z) :
  ((inject_Z b / inject_Z sampleRate - inject_Z a / inject_Z sampleRate)
   * inject_Z sampleRate == inject_Z (b - a))%Q.
Proof.
  unfold Z.sub. rewrite inject_Z_plus, inject_Z_opp. field.
  intros H. pose proof rate_pos as Hp. rewrite H in Hp. discriminate.
Qed.

End Times.

(** At the standard rates the binary64 products of the source floor to the
    counts used here (0.05, 0.025, 0.2 and 0.005 are the binary64 numbers
    nearest to the decimal constants). *)
Lemma standardRates_sameCounts : forallb sameCounts standardRates = true.
Proof. vm_compute. reflexivity. Qed.

(** The window of [calculateRMS] is clamped to the buffer: every index that
    the sum reads holds a sample. *)
Lemma calculateRMS_reads_inside (data : list float) (start length j : Z) :
  0 <= start ->
  start <= j < Z.min (start + length) (JS.length data) ->
  JS.get data j <> None.
Proof.
  intros Hs Hj. unfold JS.get.
  destruct (j <? 0) eqn:E; [apply Z.ltb_lt in E; lia|].
  apply nth_error_Some. unfold JS.length in Hj. lia.
Qed.

(** ** What the loop maintains about the segments *)

Lemma neighbours_push {A : Type} (R : A -> A -> Prop) (P : A -> Prop) (l : list A) (x : A) :
  neighbours R l -> Forall P l -> (forall p, P p -> R p x) ->
  neighbours R (l ++ [x]).
Proof.
  intros Hl HP HR i p q Hp Hq.
  destruct (Nat.lt_ge_cases (S i) (List.length l)) as [Hlt | Hge].
  - rewrite nth_error_app1 in Hp by lia.
    rewrite nth_error_app1 in Hq by lia.
    exact (Hl i p q Hp Hq).
  - assert (Hi : (i < List.length l)%nat).
    { assert (Hs : (S i < List.length (l ++ [x]))%nat)
        by (apply nth_error_Some; rewrite Hq; discriminate).
      rewrite length_app in Hs. simpl in Hs. lia. }
    rewrite nth_error_app1 in Hp by exact Hi.
    rewrite nth_error_app2 in Hq by exact Hge.
    replace (S i - List.length l)%nat with O in Hq by lia.
    simpl in Hq. injection Hq as <-.
    apply HR. rewrite Forall_forall in HP. apply HP.
    eapply nth_error_In; exact Hp.
Qed.

Section Invariant.

Variable data : list float.
Variable sampleRate : Z.
Variable threshold : float.
Hypothesis sampleRate_pos : 0 < sampleRate.

Lemma Inv_initial : Inv sampleRate (initialState sampleRate).
Proof.
  split; simpl.
  - constructor.
  - discriminate.
  - intros i p q Hp. destruct i; discriminate.
  - constructor.
Qed.

(** Closing a peak at [peakEndIndex], at least [minSegmentSamples] and at
    most [maxSegmentSamples] after its start, keeps the invariant. *)
Lemma Inv_push (st : DetectorState) (peakEndIndex : Z) :
  Inv sampleRate st -> isInPeak st = true ->
  minSegmentSamples sampleRate <= peakEndIndex - peakStartIndex st ->
  peakEndIndex - peakStartIndex st <= maxSegmentSamples sampleRate ->
  let p := mkPeak sampleRate (peakStartIndex st) peakEndIndex (maxAmplitude st) in
  Forall (fun p => (end_ p <= inject_Z peakEndIndex / inject_Z sampleRate)%Q) (peaks st ++ [p])
  /\ neighbours (separated sampleRate) (peaks st ++ [p])
  /\ Forall (withinBounds sampleRate) (peaks st ++ [p]).
Proof.
  intros [Hends Hstart Hgap Hbounds] Hin Hmin Hmax p.
  specialize (Hstart Hin).
  pose proof (minPeakDistance_nonneg sampleRate sampleRate_pos) as Hd.
  pose proof (minSegment_nonneg sampleRate sampleRate_pos) as Hm.
  split; [|split].
  - apply Forall_app; split.
    + eapply Forall_impl; [|exact Hends].
      intros a Ha. eapply Qle_trans; [exact Ha|].
      apply time_le; [exact sampleRate_pos | lia].
    + constructor; [apply Qle_refl | constructor].
  - eapply neighbours_push; [exact Hgap | exact Hends |].
    intros a Ha. unfold separated, p; simpl.
    eapply Qle_trans; [apply Qplus_le_compat; [exact Ha | apply Qle_refl] |].
    rewrite <- time_add.
    apply time_le; [exact sampleRate_pos | lia].
  - apply Forall_app; split; [exact Hbounds|].
    constructor; [|constructor].
    unfold withinBounds, p; simpl.
    rewrite (time_diff_samples sampleRate sampleRate_pos).
    rewrite <- !Zle_Qle. lia.
Qed.

Lemma Inv_step (st : DetectorState) (i : Z) (rms : float) :
  Inv sampleRate st -> Inv sampleRate (step data sampleRate threshold st i rms).
Proof.
  intros HI. unfold step.
  destruct ((threshold <? rms)%float && negb (isInPeak st)
            && (minPeakDistanceSamples sampleRate <=? i - lastPeakIndex st)) eqn:Henter.
  { destruct HI as [Hends Hstart Hgap Hbounds].
    split; simpl; auto. intros _. lia. }
  destruct ((threshold <? rms)%float && isInPeak st) eqn:Hstay.
  { destruct HI as [Hends Hstart Hgap Hbounds].
    apply andb_prop in Hstay as [_ Hin].
    split; simpl; auto. }
  destruct ((rms <=? threshold)%float && isInPeak st) eqn:Hleave; [|exact HI].
  apply andb_prop in Hleave as [_ Hin].
  set (e0 := Z.min (i + postPeakBufferSamples sampleRate) (JS.length data)).
  set (e1 := if e0 - peakStartIndex st <? minSegmentSamples sampleRate
             then peakStartIndex st + minSegmentSamples sampleRate else e0).
  set (e2 := if maxSegmentSamples sampleRate <? e1 - peakStartIndex st
             then peakStartIndex st + maxSegmentSamples sampleRate else e1).
  destruct (minSegmentSamples sampleRate <=? e2 - peakStartIndex st) eqn:Hkeep.
  - assert (Hmax : e2 - peakStartIndex st <= maxSegmentSamples sampleRate).
    { unfold e2. destruct (maxSegmentSamples sampleRate <? e1 - peakStartIndex st) eqn:E; lia. }
    apply Z.leb_le in Hkeep.
    destruct (Inv_push st e2 HI Hin Hkeep Hmax) as (H1 & H2 & H3).
    split; simpl; auto; discriminate.
  - destruct HI as [Hends Hstart Hgap Hbounds].
    split; simpl; auto; discriminate.
Qed.

Lemma Inv_loop (n : nat) : forall (i : Z) (st : DetectorState),
  Inv sampleRate st -> Inv sampleRate (loop data sampleRate threshold n i st).
Proof.
  induction n as [|n IH]; intros i st HI; simpl; [exact HI|].
  apply IH, Inv_step, HI.
Qed.

Lemma flush_invariant (st : DetectorState) :
  Inv sampleRate st ->
  neighbours (separated sampleRate) (flush data sampleRate st)
  /\ Forall (withinBounds sampleRate) (flush data sampleRate st).
Proof.
  intros HI. unfold flush.
  destruct (isInPeak st) eqn:Hin; [|destruct HI; auto].
  set (e := Z.min (JS.length data) (peakStartIndex st + maxSegmentSamples sampleRate)).
  destruct (minSegmentSamples sampleRate <=? e - peakStartIndex st) eqn:Hkeep;
    [|destruct HI; auto].
  apply Z.leb_le in Hkeep.
  assert (Hmax : e - peakStartIndex st <= maxSegmentSamples sampleRate) by (unfold e; lia).
  destruct (Inv_push st e HI Hin Hkeep Hmax) as (H1 & H2 & H3). auto.
Qed.

Lemma detect_invariant :
  neighbours (separated sampleRate) (detect data sampleRate threshold)
  /\ Forall (withinBounds sampleRate) (detect data sampleRate threshold).
Proof. apply flush_invariant, Inv_loop, Inv_initial. Qed.

End Invariant.

(** ** Facts about binary64 that the detector relies on *)

Module Float64.

Lemma SFcompare_refl (x : spec_float) :
  x <> S754_nan -> SFcompare x x = Some Eq.
Proof.
  destruct x as [s | s | | s m e]; simpl; intros H.
  - reflexivity.
  - destruct s; reflexivity.
  - contradiction H; reflexivity.
  - rewrite Z.compare_refl, Pos.compare_cont_refl. destruct s; reflexivity.
Qed.

Lemma is_nan_spec (x : float) : is_nan x = true <-> Prim2SF x = S754_nan.
Proof.
  unfold is_nan. rewrite eqb_spec. unfold SFeqb. split.
  - intros H. destruct (Prim2SF x) eqn:E; try reflexivity;
      rewrite SFcompare_refl in H by discriminate; discriminate.
  - intros ->. reflexivity.
Qed.

(** Whatever is above something is a number. *)
Lemma ltb_is_number (t x : float) : (t <? x)%float = true -> is_nan x = false.
Proof.
  intros H. destruct (is_nan x) eqn:E; [|reflexivity].
  apply is_nan_spec in E. rewrite ltb_spec, E in H.
  unfold SFltb in H. destruct (Prim2SF t); discriminate.
Qed.

Lemma Math_max_cases (a b : float) :
  is_nan a = false -> is_nan b = false ->
  JS.Math_max a b = a \/ JS.Math_max a b = b.
Proof.
  intros Ha Hb. unfold JS.Math_max. rewrite Ha, Hb. simpl.
  destruct (a <? b)%float; [right; reflexivity|].
  destruct (b <? a)%float; [left; reflexivity|].
  destruct (get_sign a); [right | left]; reflexivity.
Qed.

Lemma Math_max_above (t a b : float) :
  (t <? a)%float = true -> (t <? b)%float = true ->
  (t <? JS.Math_max a b)%float = true.
Proof.
  intros Ha Hb.
  destruct (Math_max_cases a b (ltb_is_number t a Ha) (ltb_is_number t b Hb))
    as [-> | ->]; assumption.
Qed.

Lemma Prim2SF_zero : Prim2SF zero = S754_zero false.
Proof. reflexivity. Qed.

Lemma is_zero_spec (x : float) : is_zero x = true <-> isZero (Prim2SF x).
Proof.
  unfold is_zero. rewrite eqb_spec, Prim2SF_zero.
  destruct (Prim2SF x) as [s | s | | s m e]; simpl; unfold SFeqb; simpl.
  - tauto.
  - destruct s; simpl; split; (discriminate || contradiction).
  - split; (discriminate || contradiction).
  - destruct s; simpl; split; (discriminate || contradiction).
Qed.

(** The square of a zero, added to a zero, is a zero. *)
Lemma add_square_zero (sum x : float) :
  isZero (Prim2SF sum) -> isZero (Prim2SF x) -> isZero (Prim2SF (sum + x * x)).
Proof.
  rewrite add_spec, mul_spec.
  destruct (Prim2SF sum) as [s | | |]; try contradiction.
  destruct (Prim2SF x) as [sx | | |]; try contradiction.
  intros _ _. destruct s, sx; exact I.
Qed.

(** A zero divided by anything is a zero or NaN, and so is its root. *)
Lemma sqrt_div_zero (sum n : float) :
  isZero (Prim2SF sum) -> isZeroOrNaN (Prim2SF (sqrt (sum / n))).
Proof.
  rewrite sqrt_spec, div_spec.
  destruct (Prim2SF sum) as [s | | |]; try contradiction.
  intros _. destruct (Prim2SF n) as [sn | sn | | sn m e]; simpl; exact I.
Qed.

(** Neither a zero nor NaN is above a positive number. *)
Lemma not_above_positive (t x : float) :
  (zero <? t)%float = true -> isZeroOrNaN (Prim2SF x) -> (t <? x)%float = false.
Proof.
  rewrite !ltb_spec, Prim2SF_zero. unfold SFltb.
  destruct (Prim2SF t) as [st | st | | st mt et];
    destruct (Prim2SF x) as [sx | sx | | sx mx ex]; simpl;
    try discriminate; try contradiction; try reflexivity;
    destruct st; simpl; try discriminate; reflexivity.
Qed.

Lemma shr_1_nonneg (mrs : shr_record) : 0 <= shr_m mrs -> 0 <= shr_m (shr_1 mrs).
Proof.
  destruct mrs as [m r s]. simpl.
  destruct m as [|[p|p|]|[p|p|]]; simpl; lia.
Qed.

Lemma iter_pos_invariant {A : Type} (P : A -> Prop) (f : A -> A) :
  (forall x, P x -> P (f x)) -> forall n x, P x -> P (iter_pos f n x).
Proof.
  intros Hf. induction n as [n IH|n IH|]; intros x Hx; simpl; auto.
Qed.

Lemma shr_nonneg (mrs : shr_record) (e n : Z) :
  0 <= shr_m mrs -> 0 <= shr_m (fst (shr mrs e n)).
Proof.
  intros H. unfold shr. destruct n; simpl; auto.
  apply (iter_pos_invariant (fun x => 0 <= shr_m x)); [apply shr_1_nonneg | exact H].
Qed.

Lemma shr_record_of_loc_m (m : Z) (l : location) : shr_m (shr_record_of_loc m l) = m.
Proof. destruct l as [|[| |]]; reflexivity. Qed.

Lemma shr_fexp_nonneg (m e : Z) (l : location) :
  0 <= m -> 0 <= shr_m (fst (shr_fexp prec emax m e l)).
Proof.
  intros H. unfold shr_fexp. apply shr_nonneg. rewrite shr_record_of_loc_m. exact H.
Qed.

Lemma round_nearest_even_nonneg (m : Z) (l : location) :
  0 <= m -> 0 <= round_nearest_even m l.
Proof.
  intros H. destruct l as [|[| |]]; simpl; try lia.
  destruct (Z.even m); lia.
Qed.

(** Rounding a mantissa that is not negative gives a number of the sign
    asked for, never NaN. *)
Lemma binary_round_aux_nonneg (sx : bool) (mx ex : Z) (lx : location) :
  0 <= mx ->
  match binary_round_aux prec emax sx mx ex lx with
  | S754_zero s | S754_infinity s | S754_finite s _ _ => s = sx
  | S754_nan => False
  end.
Proof.
  intros Hm. unfold binary_round_aux.
  pose proof (shr_fexp_nonneg mx ex lx Hm) as H1.
  destruct (shr_fexp prec emax mx ex lx) as [mrs' e']. simpl in H1.
  pose proof (shr_fexp_nonneg _ e' loc_Exact
                (round_nearest_even_nonneg _ (loc_of_shr_record mrs') H1)) as H2.
  destruct (shr_fexp prec emax _ e' loc_Exact) as [mrs'' e'']. simpl in H2.
  destruct (shr_m mrs''); [reflexivity | | lia].
  destruct (e'' <=? emax - prec); reflexivity.
Qed.

Lemma binary_round_aux_notNegative (mx ex : Z) (lx : location) :
  0 <= mx -> notNegative (binary_round_aux prec emax false mx ex lx).
Proof.
  intros Hm. pose proof (binary_round_aux_nonneg false mx ex lx Hm) as H.
  destruct (binary_round_aux prec emax false mx ex lx); try subst s; simpl; auto.
Qed.

(** The square of a number is at least zero. *)
Lemma mul_self_notNegative (x : spec_float) :
  x <> S754_nan -> notNegative (SF64mul x x).
Proof.
  destruct x as [s | s | | s m e]; intros H; simpl.
  - exact I.
  - destruct s; exact I.
  - contradiction H; reflexivity.
  - unfold SF64mul, SFmul. replace (xorb s s) with false by (destruct s; reflexivity).
    apply binary_round_aux_notNegative. lia.
Qed.

(** The sum of two numbers at or above zero is at least zero. *)
Lemma add_notNegative (x y : spec_float) :
  notNegative x -> notNegative y -> notNegative (SF64add x y).
Proof.
  destruct x as [sx | [|] | | [|] mx ex]; try contradiction;
    destruct y as [sy | [|] | | [|] my ey]; try contradiction; intros _ _;
    try exact I.
  - destruct sx, sy; exact I.
  - unfold SF64add, SFadd, cond_Zopp, binary_normalize.
    destruct (shl_align mx ex (Z.min ex ey)) as [a ea].
    destruct (shl_align my ey (Z.min ex ey)) as [b eb]. simpl.
    unfold binary_round.
    destruct (shl_align _ _ _) as [mz ez].
    apply binary_round_aux_notNegative. lia.
Qed.

Lemma div_core_nonneg (m1 : positive) (e1 : Z) (m2 : positive) (e2 : Z) :
  0 <= fst (fst (SFdiv_core_binary prec emax (Zpos m1) e1 (Zpos m2) e2)).
Proof.
  unfold SFdiv_core_binary.
  set (s := _ - _ - Z.min _ _).
  set (m' := match s with Z.pos _ => Z.shiftl (Z.pos m1) s | 0 => Z.pos m1 | Z.neg _ => 0 end).
  assert (Hm : 0 <= m').
  { unfold m'. destruct s; try lia. apply Z.shiftl_nonneg. lia. }
  pose proof (Z.div_pos m' (Zpos m2) Hm eq_refl) as Hq.
  unfold Z.div in Hq. destruct (Z.div_eucl m' (Z.pos m2)) as [q r]. exact Hq.
Qed.

(** A number at or above zero, divided by a finite number above zero, is at
    least zero. *)
Lemma div_notNegative (x : spec_float) (m : positive) (e : Z) :
  notNegative x -> notNegative (SF64div x (S754_finite false m e)).
Proof.
  destruct x as [sx | [|] | | [|] mx ex]; try contradiction; intros _;
    try exact I.
  unfold SF64div, SFdiv.
  pose proof (div_core_nonneg mx ex m e) as Hq.
  destruct (SFdiv_core_binary prec emax (Z.pos mx) ex (Z.pos m) e) as [[mz ez] lz].
  apply binary_round_aux_notNegative. exact Hq.
Qed.

Lemma sqrt_core_nonneg (m : positive) (e : Z) :
  0 <= fst (fst (SFsqrt_core_binary prec emax (Zpos m) e)).
Proof.
  unfold SFsqrt_core_binary.
  set (s := e - _).
  set (m' := match s with Z.pos _ => Z.shiftl (Z.pos m) s | 0 => Z.pos m | Z.neg _ => 0 end).
  pose proof (Z.sqrtrem_sqrt m') as Hs. pose proof (Z.sqrt_nonneg m') as Hn.
  destruct (Z.sqrtrem m') as [q r]. simpl in *. lia.
Qed.

(** The root of a number at or above zero is at least zero. *)
Lemma sqrt_notNegative (x : spec_float) :
  notNegative x -> notNegative (SF64sqrt x).
Proof.
  destruct x as [sx | [|] | | [|] mx ex]; try contradiction; intros _;
    try exact I.
  unfold SF64sqrt, SFsqrt.
  pose proof (sqrt_core_nonneg mx ex) as Hq.
  destruct (SFsqrt_core_binary prec emax (Z.pos mx) ex) as [[mz ez] lz].
  apply binary_round_aux_notNegative. exact Hq.
Qed.

(** A number at or above zero is above every number below zero. *)
Lemma notNegative_above_negative (t x : float) :
  (t <? zero)%float = true -> notNegative (Prim2SF x) -> (t <? x)%float = true.
Proof.
  rewrite !ltb_spec, Prim2SF_zero. unfold SFltb.
  destruct (Prim2SF t) as [st | [|] | | [|] mt et]; simpl; try discriminate;
    destruct (Prim2SF x) as [s | [|] | | [|] m e]; simpl;
    try contradiction; reflexivity.
Qed.

Lemma digits2_pos_size (p : positive) : digits2_pos p = Pos.size p.
Proof. induction p as [p IH|p IH|]; simpl; congruence. Qed.

Lemma digits2_pos_bound (p : positive) (n : Z) :
  0 <= n -> Zpos p < 2 ^ n -> Zpos (digits2_pos p) <= n.
Proof.
  intros Hn Hp. rewrite digits2_pos_size.
  pose proof (Pos.size_le p) as Hs.
  assert (H : 2 ^ Zpos (Pos.size p) <= 2 * Zpos p).
  { rewrite <- Pos2Z.inj_pow. change (2 * Zpos p) with (Zpos p~0).
    apply Pos2Z.pos_le_pos. exact Hs. }
  destruct (Z.le_gt_cases (Zpos (Pos.size p)) n) as [Hle|Hgt]; [exact Hle|].
  exfalso.
  assert (H2 : 2 ^ (n + 1) <= 2 ^ Zpos (Pos.size p))
    by (apply Z.pow_le_mono_r; lia).
  rewrite Z.pow_add_r in H2 by lia. lia.
Qed.

Lemma digits2_pos_iter_xO (p k : positive) :
  Zpos (digits2_pos (Pos.iter xO p k)) = Zpos (digits2_pos p) + Zpos k.
Proof.
  induction k as [|k IH] using Pos.peano_ind.
  - simpl. lia.
  - rewrite Pos.iter_succ. simpl digits2_pos. lia.
Qed.

(** A mantissa of 53 bits with an exponent in range is not rounded. *)
Lemma binary_round_aux_exact (s : bool) (m : positive) (e : Z) :
  Zpos (digits2_pos m) = prec -> emin <= e <= emax - prec ->
  binary_round_aux prec emax s (Zpos m) e loc_Exact = S754_finite s m e.
Proof.
  intros Hd He. unfold binary_round_aux.
  assert (Hshift : shr_fexp prec emax (Zpos m) e loc_Exact
                   = ({| shr_m := Zpos m; shr_r := false; shr_s := false |}, e)).
  { unfold shr_fexp, fexp, Zdigits2. rewrite Hd.
    change (IntDef.Z.max (prec + e - prec) emin)
      with (Z.max (prec + e - prec) emin).
    replace (Z.max (prec + e - prec) emin - e) with 0 by lia. reflexivity. }
  rewrite Hshift. simpl round_nearest_even. rewrite Hshift. simpl shr_m.
  replace (e <=? emax - prec) with true by (symmetry; apply Z.leb_le; lia).
  reflexivity.
Qed.

(** A count from 1 to 2^53 is a finite binary64 number above zero. *)
Lemma of_Z_positive (n : Z) :
  0 < n < 2 ^ 53 -> exists m e, Prim2SF (JS.of_Z n) = S754_finite false m e.
Proof.
  intros Hn. destruct n as [|p|p]; try lia. unfold JS.of_Z.
  rewrite of_uint63_spec, Uint63.of_Z_spec.
  rewrite Z.mod_small
    by (split; [lia | apply Z.lt_trans with (2 ^ 53); [lia | reflexivity]]).
  unfold binary_normalize, binary_round.
  pose proof (digits2_pos_bound p 53 ltac:(lia) ltac:(lia)) as Hd.
  assert (Hf : fexp prec emax (Zpos (digits2_pos p) + 0) = Zpos (digits2_pos p) - 53).
  { unfold fexp, SpecFloat.emin. change prec with 53. change emax with 1024.
    change (IntDef.Z.max ?a ?b) with (Z.max a b). lia. }
  rewrite Hf. unfold shl_align.
  destruct (Zpos (digits2_pos p) - 53 - 0) as [|k|k] eqn:Hk; try lia.
  - exists p, 0. apply binary_round_aux_exact.
    + change prec with 53. lia.
    + unfold SpecFloat.emin. change prec with 53. change emax with 1024. lia.
  - exists (Pos.iter xO p k), (Zpos (digits2_pos p) - 53).
    apply binary_round_aux_exact.
    + rewrite digits2_pos_iter_xO. change prec with 53. lia.
    + unfold SpecFloat.emin. change prec with 53. change emax with 1024. lia.
Qed.

(** What is above zero is above anything at or below zero. *)
Lemma above_zero_above_nonpositive (t x : float) :
  (t <=? zero)%float = true -> (zero <? x)%float = true ->
  (t <? x)%float = true.
Proof.
  rewrite leb_spec, !ltb_spec, Prim2SF_zero. unfold SFleb, SFltb.
  destruct (Prim2SF t) as [st | [|] | | [|] mt et]; simpl; try discriminate;
    destruct (Prim2SF x) as [sx | [|] | | [|] mx ex]; simpl;
    try discriminate; reflexivity.
Qed.

End Float64.

(** ** What the loop maintains about amplitudes *)

Section Amplitude.

Variable data : list float.
Variable sampleRate : Z.
Variable threshold : float.

Lemma Loud_initial : Loud threshold (initialState sampleRate).
Proof. split; simpl; [discriminate | constructor]. Qed.

Lemma Loud_step (st : DetectorState) (i : Z) (rms : float) :
  Loud threshold st -> Loud threshold (step data sampleRate threshold st i rms).
Proof.
  intros [Hcur Hpeaks]. unfold step.
  destruct (threshold <? rms)%float eqn:Habove; simpl.
  - destruct (isInPeak st) eqn:Hin; simpl.
    + split; simpl; [intros _ | exact Hpeaks].
      apply Float64.Math_max_above; auto.
    + destruct (minPeakDistanceSamples sampleRate <=? i - lastPeakIndex st).
      * split; simpl; auto.
      * rewrite andb_false_r. split; [rewrite Hin; discriminate | exact Hpeaks].
  - destruct ((rms <=? threshold)%float && isInPeak st) eqn:Hleave;
      [|split; assumption].
    apply andb_prop in Hleave as [_ Hin].
    match goal with |- Loud _ (if ?c then _ else _) => destruct c end;
      split; simpl; try discriminate; auto.
    apply Forall_app; split; [exact Hpeaks|].
    constructor; [|constructor]. simpl. auto.
Qed.

Lemma Loud_loop (n : nat) : forall (i : Z) (st : DetectorState),
  Loud threshold st -> Loud threshold (loop data sampleRate threshold n i st).
Proof.
  induction n as [|n IH]; intros i st H; simpl; [exact H|].
  apply IH, Loud_step, H.
Qed.

Lemma detect_loud :
  Forall (fun p => (threshold <? amplitude p)%float = true)
    (detect data sampleRate threshold).
Proof.
  unfold detect.
  destruct (Loud_loop (List.length data) 0 _ Loud_initial) as [Hcur Hpeaks].
  unfold flush.
  destruct (isInPeak _) eqn:Hin; [|exact Hpeaks].
  match goal with |- Forall _ (if ?c then _ else _) => destruct c end;
    [|exact Hpeaks].
  apply Forall_app; split; [exact Hpeaks|].
  constructor; [|constructor]. simpl. auto.
Qed.

End Amplitude.

Section Silence.

Variable data : list float.
Variable sampleRate : Z.
Variable threshold : float.
Hypothesis silent : Forall (fun x => is_zero x = true) data.

Lemma get_silent (i : Z) (x : float) :
  JS.get data i = Some x -> isZero (Prim2SF x).
Proof.
  unfold JS.get. destruct (i <? 0); [discriminate|].
  intros H. apply nth_error_In in H.
  rewrite Forall_forall in silent. apply Float64.is_zero_spec, silent, H.
Qed.

Lemma sumSquares_silent (n : nat) : forall (i : Z) (sum : float),
  0 <= i -> i + Z.of_nat n <= JS.length data ->
  isZero (Prim2SF sum) ->
  isZero (Prim2SF (sumSquares data i n sum)).
Proof.
  induction n as [|n IH]; intros i sum Hi Hn Hsum; simpl; [exact Hsum|].
  apply IH; [lia | lia |].
  destruct (JS.get data i) as [x|] eqn:Hx.
  - apply Float64.add_square_zero; [exact Hsum | exact (get_silent i x Hx)].
  - exfalso. unfold JS.get in Hx.
    destruct (i <? 0) eqn:E; [apply Z.ltb_lt in E; lia|].
    apply nth_error_None in Hx. unfold JS.length in Hn. lia.
Qed.

Lemma calculateRMS_silent (i length : Z) :
  0 <= i -> isZeroOrNaN (Prim2SF (calculateRMS data i length)).
Proof.
  intros Hi. unfold calculateRMS. apply Float64.sqrt_div_zero.
  destruct (Z.to_nat (Z.min (i + length) (JS.length data) - i)) as [|n] eqn:Hn;
    [exact I|].
  apply sumSquares_silent; [exact Hi | lia | exact I].
Qed.

Hypothesis threshold_pos : (zero <? threshold)%float = true.

Lemma step_idle (st : DetectorState) (i : Z) (rms : float) :
  isInPeak st = false -> (threshold <? rms)%float = false ->
  step data sampleRate threshold st i rms = st.
Proof.
  intros Hin Hrms. unfold step. rewrite Hin, Hrms. simpl.
  rewrite andb_false_r. reflexivity.
Qed.

Lemma loop_silent (n : nat) : forall (i : Z) (st : DetectorState),
  0 <= i -> isInPeak st = false ->
  loop data sampleRate threshold n i st = st.
Proof.
  induction n as [|n IH]; intros i st Hi Hin; simpl; [reflexivity|].
  rewrite step_idle; [apply IH; [lia | exact Hin] | exact Hin |].
  apply Float64.not_above_positive; [exact threshold_pos|].
  apply calculateRMS_silent, Hi.
Qed.

Lemma detect_silent : detect data sampleRate threshold = [].
Proof. unfold detect. rewrite loop_silent; [reflexivity | lia | reflexivity]. Qed.

End Silence.

(** ** Windows of numbers *)

Section Numbers.

Variable data : list float.
Hypothesis numbers : Forall (fun x => is_nan x = false) data.

Lemma sumSquares_notNegative (n : nat) : forall (i : Z) (sum : float),
  0 <= i -> i + Z.of_nat n <= JS.length data ->
  notNegative (Prim2SF sum) ->
  notNegative (Prim2SF (sumSquares data i n sum)).
Proof.
  induction n as [|n IH]; intros i sum Hi Hn Hsum; simpl; [exact Hsum|].
  apply IH; [lia | lia |].
  destruct (JS.get data i) as [x|] eqn:Hx.
  - simpl. rewrite add_spec, mul_spec.
    apply Float64.add_notNegative; [exact Hsum|]. apply Float64.mul_self_notNegative.
    intros E. apply Float64.is_nan_spec in E.
    unfold JS.get in Hx. destruct (i <? 0); [discriminate|].
    apply nth_error_In in Hx. rewrite Forall_forall in numbers.
    rewrite (numbers x Hx) in E. discriminate.
  - exfalso. revert Hx. apply (calculateRMS_reads_inside data i (Z.of_nat (S n)) i); lia.
Qed.

(** On samples that are numbers, the RMS of a window that is not empty is a
    number at or above zero. *)
Lemma calculateRMS_notNegative (i length : Z) :
  0 <= i < JS.length data -> 1 <= length -> JS.length data < 2 ^ 53 ->
  notNegative (Prim2SF (calculateRMS data i length)).
Proof.
  intros Hi Hlen Hsize. unfold calculateRMS.
  set (n := Z.min (i + length) (JS.length data) - i).
  destruct (Float64.of_Z_positive n) as (m & e & Hn); [unfold n; lia|].
  rewrite sqrt_spec, div_spec, Hn.
  apply Float64.sqrt_notNegative, Float64.div_notNegative, sumSquares_notNegative;
    [lia | unfold n; lia | exact I].
Qed.

End Numbers.

(** ** A threshold below every window *)

Section Saturated.

Variable data : list float.
Variable sampleRate : Z.
Variable threshold : float.
Hypothesis sampleRate_pos : 0 < sampleRate.
Hypothesis above : forall i, 0 <= i < JS.length data ->
  (threshold <? calculateRMS data i (rmsWindowSize sampleRate))%float = true.

Lemma step_enter (rms : float) :
  (threshold <? rms)%float = true ->
  step data sampleRate threshold (initialState sampleRate) 0 rms
  = inPeakFromStart sampleRate rms.
Proof.
  intros H. unfold step, initialState, inPeakFromStart. simpl.
  rewrite H. simpl.
  pose proof (prePeakBuffer_nonneg sampleRate sampleRate_pos) as Hpre.
  match goal with |- (if ?c then _ else _) = _ => destruct c eqn:E end.
  - f_equal. lia.
  - apply Z.leb_gt in E. lia.
Qed.

Lemma step_stay (amp : float) (i : Z) (rms : float) :
  (threshold <? rms)%float = true ->
  step data sampleRate threshold (inPeakFromStart sampleRate amp) i rms
  = inPeakFromStart sampleRate (JS.Math_max amp rms).
Proof. intros H. unfold step, inPeakFromStart. simpl. rewrite H. reflexivity. Qed.

Lemma loop_saturated (n : nat) : forall (i : Z) (amp : float),
  0 <= i -> i + Z.of_nat n <= JS.length data ->
  exists amp',
    loop data sampleRate threshold n i (inPeakFromStart sampleRate amp)
    = inPeakFromStart sampleRate amp'.
Proof.
  induction n as [|n IH]; intros i amp Hi Hn; simpl.
  - exists amp. reflexivity.
  - rewrite step_stay by (apply above; lia). apply IH; lia.
Qed.

Lemma flush_inPeakFromStart (amp : float) :
  flush data sampleRate (inPeakFromStart sampleRate amp)
  = if minSegmentSamples sampleRate
       <=? Z.min (JS.length data) (maxSegmentSamples sampleRate)
    then [mkPeak sampleRate 0 (Z.min (JS.length data) (maxSegmentSamples sampleRate)) amp]
    else [].
Proof. unfold flush. simpl. rewrite Z.sub_0_r. reflexivity. Qed.

Lemma detect_saturated :
  exists amp,
    detect data sampleRate threshold
    = if (0 <? JS.length data)
         && (minSegmentSamples sampleRate
             <=? Z.min (JS.length data) (maxSegmentSamples sampleRate))
      then [mkPeak sampleRate 0
              (Z.min (JS.length data) (maxSegmentSamples sampleRate)) amp]
      else [].
Proof.
  unfold detect.
  assert (Hlen : JS.length data = Z.of_nat (List.length data)) by reflexivity.
  destruct (List.length data) as [|n].
  - exists zero. rewrite Hlen. reflexivity.
  - simpl loop. rewrite step_enter by (apply above; lia).
    destruct (loop_saturated n 1
                (calculateRMS data 0 (rmsWindowSize sampleRate))) as [amp Hamp];
      [lia | lia |].
    exists amp. rewrite Hamp, flush_inPeakFromStart.
    replace (0 <? JS.length data) with true by (symmetry; apply Z.ltb_lt; lia).
    reflexivity.
Qed.

End Saturated.

(** A threshold below zero is below every window, when the samples are
    numbers and the rate leaves the RMS window at least one sample. *)
Lemma negative_threshold_everyWindowAbove (data : list float) (sampleRate : Z)
    (threshold : float) :
  1 <= rmsWindowSize sampleRate ->
  JS.length data < 2 ^ 53 ->
  Forall (fun x => is_nan x = false) data ->
  (threshold <? zero)%float = true ->
  everyWindowAbove data sampleRate threshold.
Proof.
  intros Hwindow Hsize Hnum Hneg i Hi.
  apply Float64.notNegative_above_negative; [exact Hneg|].
  apply calculateRMS_notNegative; assumption.
Qed.

(** A threshold at or below zero is below every window, when no window is
    silent. *)
Lemma nonpositive_threshold_everyWindowAbove (data : list float) (sampleRate : Z)
    (threshold : float) :
  (threshold <=? zero)%float = true ->
  everyWindowAbove data sampleRate zero ->
  everyWindowAbove data sampleRate threshold.
Proof.
  intros Hzero Hpos i Hi.
  apply Float64.above_zero_above_nonpositive; [exact Hzero | exact (Hpos i Hi)].
Qed.

(** ** The loop that carries the rest of the buffer computes the same *)

Lemma get_skipn (data : list float) (i : Z) :
  0 <= i -> JS.get data i = hd_error (skipn (Z.to_nat i) data).
Proof.
  intros Hi. unfold JS.get.
  destruct (i <? 0) eqn:E; [apply Z.ltb_lt in E; lia|].
  generalize (Z.to_nat i). clear. intros n. revert data.
  induction n as [|n IH]; intros [|x data]; simpl; auto.
Qed.

Lemma skipn_succ (data : list float) (i : Z) :
  0 <= i -> skipn (Z.to_nat (i + 1)) data = tl (skipn (Z.to_nat i) data).
Proof.
  intros Hi. replace (Z.to_nat (i + 1)) with (S (Z.to_nat i)) by lia.
  generalize (Z.to_nat i). clear. intros n. revert data.
  induction n as [|n IH]; intros [|x data]; try reflexivity.
  change (skipn (S n) data = tl (skipn n data)). apply IH.
Qed.

Lemma sumSquares_from (data : list float) (n : nat) :
  forall (i : Z) (sum : float), 0 <= i ->
  sumSquares data i n sum = sumSquaresFrom (skipn (Z.to_nat i) data) n sum.
Proof.
  induction n as [|n IH]; intros i sum Hi; simpl; [reflexivity|].
  rewrite IH by lia. rewrite get_skipn, skipn_succ by exact Hi. reflexivity.
Qed.

Lemma calculateRMS_from (data : list float) (start length : Z) :
  0 <= start ->
  calculateRMS data start length
  = calculateRMSFrom (JS.length data) (skipn (Z.to_nat start) data) start length.
Proof.
  intros Hs. unfold calculateRMS, calculateRMSFrom.
  rewrite sumSquares_from by exact Hs. reflexivity.
Qed.

Lemma loop_from (data : list float) (sampleRate : Z) (threshold : float)
    (suffix : list float) :
  forall (i : Z) (st : DetectorState),
  0 <= i -> suffix = skipn (Z.to_nat i) data ->
  loop data sampleRate threshold (List.length suffix) i st
  = loopFrom data sampleRate threshold (JS.length data) (rmsWindowSize sampleRate)
      suffix i st.
Proof.
  induction suffix as [|x rest IH]; intros i st Hi Hsuf; simpl; [reflexivity|].
  rewrite calculateRMS_from by exact Hi. rewrite <- Hsuf.
  apply IH; [lia|]. rewrite skipn_succ, <- Hsuf by exact Hi. reflexivity.
Qed.

Lemma detect_from (data : list float) (sampleRate : Z) (threshold : float) :
  detect data sampleRate threshold
  = flush data sampleRate
      (loopFrom data sampleRate threshold (JS.length data) (rmsWindowSize sampleRate)
         data 0 (initialState sampleRate)).
Proof. unfold detect. rewrite (loop_from data sampleRate threshold data 0); auto; lia. Qed.

Lemma detectPeaks_channel0 (audioBuffer : AudioBuffer) (threshold : float)
    (data : list float) :
  nth_error (channels audioBuffer) 0 = Some data ->
  detectPeaks audioBuffer threshold
  = Ok (detect data (sampleRate audioBuffer) threshold).
Proof.
  intros H. unfold detectPeaks, getChannelData.
  change (Z.to_nat 0) with O. rewrite H. reflexivity.
Qed.

(** ** The slicer *)

Lemma update_middle {A : Type} (done rest : list A) (x v : A) :
  JS.update (done ++ x :: rest) (List.length done) v = done ++ v :: rest.
Proof. induction done as [|y done IH]; simpl; [reflexivity | rewrite IH; reflexivity]. Qed.

Lemma nth_error_middle {A : Type} (done rest : list A) (x : A) :
  nth_error (done ++ x :: rest) (List.length done) = Some x.
Proof. induction done as [|y done IH]; simpl; [reflexivity | exact IH]. Qed.

Section Copy.

Variable channelData : list float.
Variable sampleStart : Z.

Let sample (i : nat) : float :=
  JS.toNumber (JS.get channelData (sampleStart + Z.of_nat i)).

Lemma copySamples_spec (n : nat) : forall (done rest : list float),
  List.length rest = n ->
  copySamples channelData (done ++ rest) (Some sampleStart)
    (Z.of_nat (List.length done)) n
  = done ++ map sample (seq (List.length done) n).
Proof.
  induction n as [|n IH]; intros done rest Hrest.
  - destruct rest; [|discriminate]. reflexivity.
  - destruct rest as [|x rest]; [discriminate|]. injection Hrest as Hrest.
    simpl copySamples. unfold JS.set, JS.getFrom.
    destruct (Z.of_nat (List.length done) <? 0) eqn:E; [apply Z.ltb_lt in E; lia|].
    rewrite Nat2Z.id, update_middle.
    replace (Z.of_nat (List.length done) + 1)
      with (Z.of_nat (List.length (done ++ [sample (List.length done)])))
      by (rewrite length_app; simpl; lia).
    change (done ++ JS.toNumber (JS.get channelData (sampleStart + Z.of_nat (List.length done))) :: rest)
      with (done ++ [sample (List.length done)] ++ rest).
    rewrite app_assoc, (IH _ rest Hrest), <- app_assoc, length_app.
    simpl. rewrite Nat.add_1_r. reflexivity.
Qed.

Lemma copySamples_fresh (sampleDuration : Z) :
  copySamples channelData (repeat zero (Z.to_nat sampleDuration))
    (Some sampleStart) 0 (Z.to_nat sampleDuration)
  = samplesFrom channelData sampleStart sampleDuration.
Proof.
  apply (copySamples_spec (Z.to_nat sampleDuration) []). apply repeat_length.
Qed.

End Copy.

Lemma getChannelData_middle (b : AudioBuffer) (done rest : list (list float))
    (x : list float) :
  channels b = done ++ x :: rest ->
  getChannelData b (Z.of_nat (List.length done)) = Ok x.
Proof.
  intros H. unfold getChannelData.
  destruct (Z.of_nat (List.length done) <? 0) eqn:E; [apply Z.ltb_lt in E; lia|].
  rewrite Nat2Z.id, H, nth_error_middle. reflexivity.
Qed.

Lemma copyChannels_spec (audioBuffer : AudioBuffer) (sampleStart sampleDuration : Z)
    (rate : Z) (n : nat) :
  forall (done rest fresh : list (list float)),
  channels audioBuffer = done ++ rest ->
  List.length rest = n ->
  List.length fresh = List.length done ->
  copyChannels audioBuffer
    {| sampleRate := rate;
       channels := fresh ++ repeat (repeat zero (Z.to_nat sampleDuration)) n |}
    (Some sampleStart) sampleDuration (Z.of_nat (List.length done)) n
  = Ok {| sampleRate := rate;
          channels := fresh
            ++ map (fun c => samplesFrom c sampleStart sampleDuration) rest |}.
Proof.
  induction n as [|n IH]; intros done rest fresh Hch Hrest Hfresh.
  - destruct rest; [|discriminate]. reflexivity.
  - destruct rest as [|x rest]; [discriminate|]. injection Hrest as Hrest.
    simpl copyChannels.
    rewrite (getChannelData_middle audioBuffer done rest x Hch). simpl bind.
    rewrite <- Hfresh.
    rewrite (getChannelData_middle
               {| sampleRate := rate;
                  channels := fresh
                    ++ repeat zero (Z.to_nat sampleDuration)
                       :: repeat (repeat zero (Z.to_nat sampleDuration)) n |}
               fresh (repeat (repeat zero (Z.to_nat sampleDuration)) n)
               (repeat zero (Z.to_nat sampleDuration)) eq_refl).
    simpl bind. rewrite copySamples_fresh.
    unfold setChannelData. simpl sampleRate. simpl channels.
    destruct (Z.of_nat (List.length fresh) <? 0) eqn:E; [apply Z.ltb_lt in E; lia|].
    rewrite Nat2Z.id, update_middle.
    replace (Z.of_nat (List.length fresh) + 1)
      with (Z.of_nat (List.length (done ++ [x])))
      by (rewrite length_app, Hfresh; simpl; lia).
    change (fresh ++ samplesFrom x sampleStart sampleDuration
                  :: repeat (repeat zero (Z.to_nat sampleDuration)) n)
      with (fresh ++ [samplesFrom x sampleStart sampleDuration]
                  ++ repeat (repeat zero (Z.to_nat sampleDuration)) n).
    rewrite app_assoc.
    rewrite (IH (done ++ [x]) rest).
    + rewrite <- app_assoc. reflexivity.
    + rewrite <- app_assoc. exact Hch.
    + exact Hrest.
    + rewrite !length_app, Hfresh. reflexivity.
Qed.

Lemma samplesFrom_in_bounds (channelData : list float) (sampleStart sampleDuration : Z) :
  0 <= sampleStart -> sampleStart + sampleDuration <= JS.length channelData ->
  samplesFrom channelData sampleStart sampleDuration
  = firstn (Z.to_nat sampleDuration) (skipn (Z.to_nat sampleStart) channelData).
Proof.
  intros Hs Hd. unfold samplesFrom.
  assert (Hlen : (Z.to_nat sampleDuration
                  <= List.length (skipn (Z.to_nat sampleStart) channelData))%nat).
  { rewrite length_skipn. unfold JS.length in Hd. lia. }
  assert (Hget : forall i : nat,
             JS.get channelData (sampleStart + Z.of_nat i)
             = nth_error (skipn (Z.to_nat sampleStart) channelData) i).
  { intros i. unfold JS.get.
    destruct (sampleStart + Z.of_nat i <? 0) eqn:E; [apply Z.ltb_lt in E; lia|].
    rewrite nth_error_skipn. f_equal. lia. }
  erewrite map_ext by (intros i; rewrite Hget; reflexivity).
  revert Hlen. generalize (skipn (Z.to_nat sampleStart) channelData).
  generalize (Z.to_nat sampleDuration). clear.
  intros n. induction n as [|n IH]; intros l Hl; [reflexivity|].
  destruct l as [|x l]; [simpl in Hl; lia|].
  simpl. f_equal. rewrite <- seq_shift, map_map. simpl. apply IH.
  simpl in Hl. lia.
Qed.

Lemma sliceAudio_spec (audioBuffer : AudioBuffer) (start end_ : float)
    (sampleStart sampleDuration : Z) :
  JS.Math_floor (start * JS.of_Z (sampleRate audioBuffer)) = Some sampleStart ->
  JS.Math_floor ((end_ - start) * JS.of_Z (sampleRate audioBuffer))
  = Some sampleDuration ->
  1 <= numberOfChannels audioBuffer -> 1 <= sampleDuration < 2 ^ 32 ->
  0 < sampleRate audioBuffer ->
  sliceAudio audioBuffer start end_
  = Ok {| sampleRate := sampleRate audioBuffer;
          channels := map (fun c => samplesFrom c sampleStart sampleDuration)
                        (channels audioBuffer) |}.
Proof.
  intros Hstart Hduration Hch Hdur Hrate. unfold sliceAudio, createBuffer.
  rewrite Hstart, Hduration. unfold toUnsignedLong.
  rewrite (Z.mod_small sampleDuration) by lia.
  replace (numberOfChannels audioBuffer <? 1) with false
    by (symmetry; apply Z.ltb_ge; lia).
  replace (sampleDuration <? 1) with false by (symmetry; apply Z.ltb_ge; lia).
  replace (sampleRate audioBuffer <=? 0) with false
    by (symmetry; apply Z.leb_gt; lia).
  simpl bind. unfold numberOfChannels. rewrite Nat2Z.id.
  apply (copyChannels_spec audioBuffer sampleStart sampleDuration
           (sampleRate audioBuffer) (List.length (channels audioBuffer))
           [] (channels audioBuffer) []); reflexivity.
Qed.

(** The exceptions of the slicer: never [RangeError]. *)
Lemma copyChannels_no_RangeError (audioBuffer : AudioBuffer)
    (sampleStart : option Z) (sampleDuration : Z) (n : nat) :
  forall (newBuffer : AudioBuffer) (channel : Z),
  copyChannels audioBuffer newBuffer sampleStart sampleDuration channel n
  <> Throw RangeError.
Proof.
  induction n as [|n IH]; intros newBuffer channel; simpl; [discriminate|].
  unfold getChannelData at 1.
  destruct (channel <? 0); [discriminate|].
  destruct (nth_error (channels audioBuffer) (Z.to_nat channel)); [|discriminate].
  simpl bind. unfold getChannelData at 1.
  destruct (channel <? 0); [discriminate|].
  destruct (nth_error (channels newBuffer) (Z.to_nat channel)); [|discriminate].
  simpl bind. apply IH.
Qed.

Lemma sliceAudio_no_RangeError (audioBuffer : AudioBuffer) (start end_ : float) :
  sliceAudio audioBuffer start end_ <> Throw RangeError.
Proof.
  unfold sliceAudio, createBuffer.
  destruct (_ || _ || _); [discriminate|].
  simpl bind. apply copyChannels_no_RangeError.
Qed.

(** A range of no frame is refused by [createBuffer]. *)
Lemma sliceAudio_empty_range (audioBuffer : AudioBuffer) (start end_ : float) :
  toUnsignedLong
    (JS.Math_floor ((end_ - start) * JS.of_Z (sampleRate audioBuffer))) = 0 ->
  sliceAudio audioBuffer start end_ = Throw NotSupportedError.
Proof.
  intros H. unfold sliceAudio, createBuffer.
  rewrite H. simpl (0 <? 1). rewrite orb_true_r. reflexivity.
Qed.

Lemma update_length {A : Type} (l : list A) : forall (i : nat) (v : A),
  List.length (JS.update l i v) = List.length l.
Proof.
  induction l as [|x l IH]; intros [|i] v; simpl; try reflexivity.
  rewrite IH. reflexivity.
Qed.



(** ** [detectPeaks] and channel 0 *)

Lemma detectPeaks_Ok (audioBuffer : AudioBuffer) (threshold : float)
    (peaks : list Peak) :
  detectPeaks audioBuffer threshold = Ok peaks ->
  exists data,
    nth_error (channels audioBuffer) 0 = Some data
    /\ peaks = detect data (sampleRate audioBuffer) threshold.
Proof.
  unfold detectPeaks, getChannelData. change (Z.to_nat 0) with O. simpl (0 <? 0).
  destruct (nth_error (channels audioBuffer) 0) as [data|]; simpl; [|discriminate].
  intros H. injection H as <-. exists data. split; reflexivity.
Qed.

(** A property of every index below [n], checked index by index. *)
Lemma range_check (f : Z -> bool) (n : nat) :
  forallb (fun k => f (Z.of_nat k)) (seq 0 n) = true ->
  forall i, 0 <= i < Z.of_nat n -> f i = true.
Proof.
  intros H i Hi. rewrite forallb_forall in H.
  specialize (H (Z.to_nat i)). rewrite Z2Nat.id in H by lia.
  apply H, in_seq. lia.
Qed.

Lemma scenarioA_detect :
  detect scenarioAData 48000 defaultThreshold
  = [ {| start := 3370 # 48000; end_ := 7291 # 48000;
         amplitude := sqrt (25 / 240)%float |} ].
Proof. rewrite detect_from. vm_compute. reflexivity. Qed.

Lemma twoBursts_detect :
  detect twoBurstsData 1000 defaultThreshold
  = [ {| start := 71 # 1000; end_ := 170 # 1000; amplitude := one |};
      {| start := 391 # 1000; end_ := 490 # 1000; amplitude := one |} ].
Proof. vm_compute. reflexivity. Qed.

Lemma halfSecondTone_detect :
  detect halfSecondToneData 48000 zero
  = [ {| start := 0 # 48000; end_ := 9600 # 48000; amplitude := one |} ].
Proof. rewrite detect_from. vm_compute. reflexivity. Qed.

(** ** The shape of the detected segments *)

Section ShapeOfSegments.

Variable data : list float.
Variable sampleRate : Z.
Variable threshold : float.
Hypothesis sampleRate_pos : 0 < sampleRate.

Lemma Shape_initial : Shape data sampleRate 0 (initialState sampleRate).
Proof.
  pose proof (minPeakDistance_nonneg sampleRate sampleRate_pos).
  pose proof (minSegment_nonneg sampleRate sampleRate_pos).
  split; simpl.
  - unfold JS.length. lia.
  - discriminate.
  - constructor.
  - lia.
Qed.

Lemma Math_max_window (a b : float) (P : float -> Prop) :
  (threshold <? a)%float = true -> (threshold <? b)%float = true ->
  P a -> P b -> P (JS.Math_max a b).
Proof.
  intros Ha Hb Pa Pb.
  destruct (Float64.Math_max_cases a b (Float64.ltb_is_number _ _ Ha)
              (Float64.ltb_is_number _ _ Hb)) as [-> | ->]; assumption.
Qed.

(** Closing the open peak at [e] keeps the shape. *)
Lemma Shape_close (st : DetectorState) (i e : Z) :
  0 <= i <= JS.length data ->
  Shape data sampleRate i st -> isInPeak st = true ->
  minSegmentSamples sampleRate <= e - peakStartIndex st
  <= maxSegmentSamples sampleRate ->
  (e <= JS.length data \/ e - peakStartIndex st = minSegmentSamples sampleRate) ->
  let st' :=
    {| lastPeakIndex := e;
       isInPeak := false;
       peakStartIndex := peakStartIndex st;
       maxAmplitude := maxAmplitude st;
       peaks := peaks st ++ [mkPeak sampleRate (peakStartIndex st) e (maxAmplitude st)] |} in
  forall next, Shape data sampleRate next st'.
Proof.
  intros Hi [Hlast Hopen Hpeaks Hcount] Hin Hlen Hend st' next.
  pose proof (minPeakDistance_nonneg sampleRate sampleRate_pos) as Hd.
  pose proof (minSegment_nonneg sampleRate sampleRate_pos) as Hm.
  destruct (Hopen Hin) as (Hstart & Hbefore & j & Hj & Hamp).
  split; simpl.
  - lia.
  - discriminate.
  - apply Forall_app; split; [exact Hpeaks|].
    constructor; [|constructor].
    exists (peakStartIndex st), e, j. rewrite Hamp.
    repeat split; first [lia | exact Hend].
  - rewrite length_app. simpl. nia.
Qed.

Lemma Shape_step (st : DetectorState) (i : Z) :
  0 <= i < JS.length data ->
  Loud threshold st ->
  Shape data sampleRate i st ->
  Shape data sampleRate (i + 1)
    (step data sampleRate threshold st i
       (calculateRMS data i (rmsWindowSize sampleRate))).
Proof.
  intros Hi [Hloud _] HS. pose proof HS as [Hlast Hopen Hpeaks Hcount].
  pose proof (minPeakDistance_nonneg sampleRate sampleRate_pos) as Hd.
  pose proof (minSegment_nonneg sampleRate sampleRate_pos) as Hm.
  pose proof (prePeakBuffer_nonneg sampleRate sampleRate_pos) as Hpre.
  pose proof (minSegment_le_maxSegment sampleRate sampleRate_pos) as Hmm.
  set (rms := calculateRMS data i (rmsWindowSize sampleRate)).
  unfold step.
  destruct ((threshold <? rms)%float && negb (isInPeak st)
            && (minPeakDistanceSamples sampleRate <=? i - lastPeakIndex st)) eqn:Henter.
  { apply andb_prop in Henter as [_ Hfar]. apply Z.leb_le in Hfar.
    split; simpl; auto. intros _. split; [lia|]. split; [lia|].
    exists i. split; [lia | reflexivity]. }
  destruct ((threshold <? rms)%float && isInPeak st) eqn:Hstay.
  { apply andb_prop in Hstay as [Hrms Hin].
    destruct (Hopen Hin) as (Hstart & Hbefore & j & Hj & Hamp).
    split; simpl; auto. intros _. split; [exact Hstart|]. split; [lia|].
    apply (Math_max_window (maxAmplitude st) rms
             (fun m => exists j, peakStartIndex st <= j < JS.length data
                        /\ m = calculateRMS data j (rmsWindowSize sampleRate)));
      [exact (Hloud Hin) | exact Hrms | exists j; auto |].
    exists i. split; [lia | reflexivity]. }
  destruct ((rms <=? threshold)%float && isInPeak st) eqn:Hleave.
  2:{ split; auto. intros Hin. destruct (Hopen Hin) as (H1 & H2 & H3).
      split; [exact H1|]. split; [lia | exact H3]. }
  apply andb_prop in Hleave as [_ Hin].
  destruct (Hopen Hin) as (Hstart & Hbefore & _).
  set (e0 := Z.min (i + postPeakBufferSamples sampleRate) (JS.length data)).
  set (e1 := if e0 - peakStartIndex st <? minSegmentSamples sampleRate
             then peakStartIndex st + minSegmentSamples sampleRate else e0).
  set (e2 := if maxSegmentSamples sampleRate <? e1 - peakStartIndex st
             then peakStartIndex st + maxSegmentSamples sampleRate else e1).
  assert (He0 : e0 <= JS.length data) by (unfold e0; lia).
  assert (He1 : e1 = e0 /\ minSegmentSamples sampleRate <= e0 - peakStartIndex st
                \/ e1 = peakStartIndex st + minSegmentSamples sampleRate).
  { unfold e1. destruct (Z.ltb_spec (e0 - peakStartIndex st) (minSegmentSamples sampleRate));
      [right; reflexivity | left; split; [reflexivity | lia]]. }
  assert (He2 : e2 - peakStartIndex st <= maxSegmentSamples sampleRate
                /\ (e2 <= JS.length data
                    \/ e2 - peakStartIndex st = minSegmentSamples sampleRate)).
  { unfold e2.
    destruct (Z.ltb_spec (maxSegmentSamples sampleRate) (e1 - peakStartIndex st));
      lia. }
  destruct (minSegmentSamples sampleRate <=? e2 - peakStartIndex st) eqn:Hkeep.
  - apply Z.leb_le in Hkeep.
    apply (Shape_close st i e2); [lia | exact HS | exact Hin | lia | tauto].
  - split; simpl; auto. discriminate.
Qed.

Lemma Shape_loop (n : nat) : forall (i : Z) (st : DetectorState),
  0 <= i -> i + Z.of_nat n <= JS.length data ->
  Loud threshold st -> Shape data sampleRate i st ->
  Shape data sampleRate (i + Z.of_nat n) (loop data sampleRate threshold n i st)
  /\ Loud threshold (loop data sampleRate threshold n i st).
Proof.
  induction n as [|n IH]; intros i st Hi Hn HL HS.
  - simpl. rewrite Z.add_0_r. split; assumption.
  - simpl loop. replace (i + Z.of_nat (S n)) with (i + 1 + Z.of_nat n) by lia.
    apply IH; [lia | lia | apply Loud_step, HL | apply Shape_step; [lia | exact HL | exact HS]].
Qed.

(** Every segment is built inside the buffer, and there is room for all of
    them. *)
Lemma detect_shape :
  Forall (built data sampleRate) (detect data sampleRate threshold)
  /\ Z.of_nat (List.length (detect data sampleRate threshold))
     * (minSegmentSamples sampleRate + minPeakDistanceSamples sampleRate)
     <= JS.length data
        + (minSegmentSamples sampleRate + minPeakDistanceSamples sampleRate).
Proof.
  pose proof (minPeakDistance_nonneg sampleRate sampleRate_pos) as Hd.
  pose proof (minSegment_nonneg sampleRate sampleRate_pos) as Hm.
  unfold detect.
  destruct (Shape_loop (List.length data) 0 (initialState sampleRate))
    as [HS HL];
    [lia | unfold JS.length; lia | apply Loud_initial | apply Shape_initial |].
  set (st := loop data sampleRate threshold (List.length data) 0
               (initialState sampleRate)) in *.
  pose proof HS as [Hlast Hopen Hpeaks Hcount].
  unfold flush. destruct (isInPeak st) eqn:Hin.
  2:{ split; [exact Hpeaks | lia]. }
  destruct (Hopen eq_refl) as (Hstart & Hbefore & j & Hj & Hamp).
  set (e := Z.min (JS.length data) (peakStartIndex st + maxSegmentSamples sampleRate)).
  destruct (minSegmentSamples sampleRate <=? e - peakStartIndex st) eqn:Hkeep.
  2:{ split; [exact Hpeaks | lia]. }
  apply Z.leb_le in Hkeep.
  assert (Hi : 0 <= 0 + Z.of_nat (List.length data) <= JS.length data)
    by (unfold JS.length; lia).
  destruct (Shape_close st _ e Hi HS Hin) with (next := 0) as [_ _ Hpeaks' _];
    [unfold e; lia | left; unfold e; lia |].
  simpl in Hpeaks'. split; [exact Hpeaks'|].
  rewrite length_app. simpl. unfold JS.length in *. nia.
Qed.

End ShapeOfSegments.

(** The segments of a run of [detectPeaks], one by one. *)
Lemma detectPeaks_built (audioBuffer : AudioBuffer) (threshold : float)
    (data : list float) (peaks : list Peak) (p : Peak) :
  0 < sampleRate audioBuffer ->
  nth_error (channels audioBuffer) 0 = Some data ->
  detectPeaks audioBuffer threshold = Ok peaks ->
  In p peaks ->
  built data (sampleRate audioBuffer) p.
Proof.
  intros Hrate Hdata Hrun Hp.
  rewrite (detectPeaks_channel0 _ _ _ Hdata) in Hrun.
  assert (E : peaks = detect data (sampleRate audioBuffer) threshold) by congruence.
  rewrite E in Hp.
  destruct (detect_shape data (sampleRate audioBuffer) threshold Hrate) as [Hb _].
  rewrite Forall_forall in Hb. exact (Hb p Hp).
Qed.

(** At 20 Hz and above, the shortest segment has a sample. *)
Lemma minSegment_pos (sampleRate : Z) :
  20 <= sampleRate -> 1 <= minSegmentSamples sampleRate.
Proof.
  intros H. unfold minSegmentSamples, MIN_SEGMENT_DURATION.
  rewrite toSamples_quotient. apply Z.div_le_lower_bound; lia.
Qed.

(** The binary64 number of a time of a segment. *)
Lemma number64_time (sampleRate index : Z) :
  0 < sampleRate ->
  number64 (inject_Z index / inject_Z sampleRate)
  = (JS.of_Z index / JS.of_Z sampleRate)%float.
Proof.
  intros H. destruct sampleRate as [|rate|rate]; try lia.
  unfold number64, Qdiv, Qmult, Qinv, inject_Z. cbn [Qnum Qden].
  rewrite Z.mul_1_r, Pos.mul_1_l. reflexivity.
Qed.

Lemma time_le_inv (sampleRate a b : Z) :
  0 < sampleRate ->
  (inject_Z a / inject_Z sampleRate <= inject_Z b / inject_Z sampleRate)%Q ->
  a <= b.
Proof.
  intros Hrate H. pose proof (rate_pos sampleRate Hrate) as Hr.
  rewrite Zle_Qle.
  apply (Qmult_le_r _ _ (/ inject_Z sampleRate));
    [apply Qinv_lt_0_compat, Hr | exact H].
Qed.

(** A segment by its sample indices: the times, exact and binary64. *)
Lemma built_indices (data : list float) (sampleRate : Z) (p : Peak) :
  0 < sampleRate -> built data sampleRate p ->
  exists s e : Z,
    start p = (inject_Z s / inject_Z sampleRate)%Q
    /\ end_ p = (inject_Z e / inject_Z sampleRate)%Q
    /\ number64 (start p) = (JS.of_Z s / JS.of_Z sampleRate)%float
    /\ number64 (end_ p) = (JS.of_Z e / JS.of_Z sampleRate)%float
    /\ 0 <= s < JS.length data
    /\ minSegmentSamples sampleRate <= e - s <= maxSegmentSamples sampleRate.
Proof.
  intros Hrate (s & e & j & -> & Hs & Hlen & _ & _). exists s, e.
  cbn [start end_ mkPeak]. rewrite !number64_time by exact Hrate.
  repeat split; first [reflexivity | lia].
Qed.

(** * Properties of the specification *)

(** C1, as the code behaves.  When the RMS of every window is above the
    threshold (a threshold below zero on samples that are numbers, a
    threshold at or below zero on audio with no silent window), the detector enters a peak at index 0 and never leaves it: nothing is
    closed inside the loop, and the flush emits at most one segment, from
    time 0 to [MAX_SEGMENT_DURATION] (or to the end of a shorter buffer),
    provided that is at least [MIN_SEGMENT_DURATION] long.  There is no chain
    of segments. *)
Theorem detectPeaks_saturated_single_segment
    (audioBuffer : AudioBuffer) (threshold : float) (data : list float) :
  0 < sampleRate audioBuffer ->
  nth_error (channels audioBuffer) 0 = Some data ->
  everyWindowAbove data (sampleRate audioBuffer) threshold ->
  exists amp,
    detectPeaks audioBuffer threshold
    = Ok (if (0 <? JS.length data)
             && (minSegmentSamples (sampleRate audioBuffer)
                 <=? Z.min (JS.length data) (maxSegmentSamples (sampleRate audioBuffer)))
          then [mkPeak (sampleRate audioBuffer) 0
                  (Z.min (JS.length data) (maxSegmentSamples (sampleRate audioBuffer)))
                  amp]
          else []).
Proof.
  intros Hrate Hdata Habove.
  destruct (detect_saturated data (sampleRate audioBuffer) threshold Hrate Habove)
    as [amp Hamp].
  exists amp. rewrite (detectPeaks_channel0 _ _ _ Hdata), Hamp. reflexivity.
Qed.

Lemma detectPeaks_saturated_single_segment_witness :
  0 < sampleRate constantTone
  /\ nth_error (channels constantTone) 0 = Some constantToneData
  /\ exists amp,
       detectPeaks constantTone zero
       = Ok [ {| start := 0 # 1000; end_ := 200 # 1000; amplitude := amp |} ].
Proof.
  split; [reflexivity|]. split; [reflexivity|].
  apply (detectPeaks_saturated_single_segment constantTone zero constantToneData);
    [reflexivity | reflexivity |].
  unfold everyWindowAbove.
  apply (range_check
           (fun i => (zero <? calculateRMS constantToneData i (rmsWindowSize 1000))%float)
           (List.length constantToneData)).
  vm_compute. reflexivity.
Defined.

(** C1, as stated, fails: half a second of a constant non-zero signal at
    48000 Hz with threshold 0 gives a single segment, the first 0.2 s, and
    not a chain of maximum-length segments. *)
Lemma halfSecondTone_not_chained :
  detectPeaks halfSecondTone zero
  = Ok [ {| start := 0 # 48000; end_ := 9600 # 48000; amplitude := one |} ]
  /\ forall ps,
       detectPeaks halfSecondTone zero = Ok ps ->
       ~ chainedMaxSegments (sampleRate halfSecondTone) ps.
Proof.
  assert (H : detectPeaks halfSecondTone zero
              = Ok [ {| start := 0 # 48000; end_ := 9600 # 48000;
                        amplitude := one |} ]).
  { rewrite (detectPeaks_channel0 halfSecondTone zero halfSecondToneData eq_refl).
    simpl sampleRate. rewrite halfSecondTone_detect. reflexivity. }
  split; [exact H|].
  intros ps Hps [Hlen _]. rewrite H in Hps. injection Hps as <-.
  simpl in Hlen. lia.
Qed.

(** C2.  The segments that [detectPeaks] returns are in non-decreasing start
    order and do not overlap: each segment ends no later than the next one
    starts. *)
Theorem detectPeaks_ordered_non_overlapping
    (audioBuffer : AudioBuffer) (threshold : float) (peaks : list Peak)
    (i : nat) (p q : Peak) :
  0 < sampleRate audioBuffer ->
  detectPeaks audioBuffer threshold = Ok peaks ->
  nth_error peaks i = Some p ->
  nth_error peaks (S i) = Some q ->
  (start p <= start q)%Q /\ (end_ p <= start q)%Q.
Proof.
  intros Hrate Hrun Hp Hq.
  destruct (detectPeaks_Ok _ _ _ Hrun) as (data & _ & ->).
  destruct (detect_invariant data (sampleRate audioBuffer) threshold Hrate)
    as [Hgap Hbounds].
  pose proof (Hgap i p q Hp Hq) as Hsep. unfold separated in Hsep.
  rewrite Forall_forall in Hbounds.
  destruct (Hbounds p (nth_error_In _ _ Hp)) as [Hmin _].
  pose proof (minPeakDistance_nonneg _ Hrate) as Hd.
  pose proof (minSegment_nonneg _ Hrate) as Hm.
  pose proof (rate_pos _ Hrate) as Hr.
  assert (Hgap0 : (0 <= inject_Z (minPeakDistanceSamples (sampleRate audioBuffer))
                        / inject_Z (sampleRate audioBuffer))%Q).
  { apply Qle_shift_div_l; [exact Hr|]. rewrite Qmult_0_l.
    change 0%Q with (inject_Z 0). rewrite <- Zle_Qle. exact Hd. }
  assert (Hlen : (start p <= end_ p)%Q).
  { destruct (Qlt_le_dec (end_ p) (start p)) as [Hlt|Hle]; [|exact Hle].
    exfalso.
    assert (H0 : (0 <= inject_Z (minSegmentSamples (sampleRate audioBuffer)))%Q).
    { change 0%Q with (inject_Z 0). rewrite <- Zle_Qle. exact Hm. }
    assert (Hneg : ((end_ p - start p) * inject_Z (sampleRate audioBuffer) < 0)%Q).
    { setoid_replace 0%Q with (0 * inject_Z (sampleRate audioBuffer))%Q by ring.
      apply Qmult_lt_compat_r; [exact Hr | lra]. }
    lra. }
  split; lra.
Qed.

Lemma detectPeaks_ordered_non_overlapping_witness :
  (71 # 1000 <= 391 # 1000)%Q /\ (170 # 1000 <= 391 # 1000)%Q.
Proof.
  apply (detectPeaks_ordered_non_overlapping twoBursts defaultThreshold
           (detect twoBurstsData 1000 defaultThreshold) 0
           {| start := 71 # 1000; end_ := 170 # 1000; amplitude := one |}
           {| start := 391 # 1000; end_ := 490 # 1000; amplitude := one |}).
  - reflexivity.
  - reflexivity.
  - vm_compute. reflexivity.
  - vm_compute. reflexivity.
Defined.

(** C3, as the code behaves.  The bounds on the duration of a segment, the
    flushed one included, are bounds on its length in samples: the start and
    the end are the quotients by the sample rate of two sample indices [s]
    and [e], and [e - s] is at least [floor(MIN_SEGMENT_DURATION *
    sampleRate)] and at most [floor(MAX_SEGMENT_DURATION * sampleRate)]. *)
Theorem detectPeaks_duration_bounds
    (audioBuffer : AudioBuffer) (threshold : float) (peaks : list Peak) (p : Peak) :
  0 < sampleRate audioBuffer ->
  detectPeaks audioBuffer threshold = Ok peaks ->
  In p peaks ->
  exists s e : Z,
    start p = (inject_Z s / inject_Z (sampleRate audioBuffer))%Q
    /\ end_ p = (inject_Z e / inject_Z (sampleRate audioBuffer))%Q
    /\ number64 (start p) = (JS.of_Z s / JS.of_Z (sampleRate audioBuffer))%float
    /\ number64 (end_ p) = (JS.of_Z e / JS.of_Z (sampleRate audioBuffer))%float
    /\ toSamples MIN_SEGMENT_DURATION (sampleRate audioBuffer) <= e - s
       <= toSamples MAX_SEGMENT_DURATION (sampleRate audioBuffer).
Proof.
  intros Hrate Hrun Hp.
  destruct (detectPeaks_Ok _ _ _ Hrun) as (data & Hdata & _).
  destruct (built_indices data (sampleRate audioBuffer) p Hrate
              (detectPeaks_built _ _ _ _ _ Hrate Hdata Hrun Hp))
    as (s & e & Hs & He & Hs64 & He64 & _ & Hlen).
  exists s, e. repeat split; first [assumption | apply Hlen].
Qed.

Lemma detectPeaks_duration_bounds_witness :
  exists s e : Z,
    start firstBurst = (inject_Z s / inject_Z 1000)%Q
    /\ end_ firstBurst = (inject_Z e / inject_Z 1000)%Q
    /\ number64 (start firstBurst) = (JS.of_Z s / JS.of_Z 1000)%float
    /\ number64 (end_ firstBurst) = (JS.of_Z e / JS.of_Z 1000)%float
    /\ toSamples MIN_SEGMENT_DURATION 1000 <= e - s
       <= toSamples MAX_SEGMENT_DURATION 1000.
Proof.
  apply (detectPeaks_duration_bounds twoBursts defaultThreshold
           (detect twoBurstsData 1000 defaultThreshold) firstBurst).
  - reflexivity.
  - reflexivity.
  - vm_compute. left. reflexivity.
Defined.

(** C3, as stated, fails: 551 samples of a constant signal at 11025 Hz give
    one segment, from sample 0 to sample 551, the flushed one, and
    551 / 11025 s is less than [MIN_SEGMENT_DURATION]: as a quotient, on the
    binary64 times that the code returns, whose difference is below the
    binary64 number 0.05, and on the exact values of these times. *)
Lemma shortTone_below_minimum :
  detectPeaks shortTone defaultThreshold = Ok [shortToneSegment]
  /\ ~ (MIN_SEGMENT_DURATION <= end_ shortToneSegment - start shortToneSegment)%Q
  /\ (number64 (end_ shortToneSegment) - number64 (start shortToneSegment)
      <? 0x1.999999999999ap-5)%float = true
  /\ ~ (MIN_SEGMENT_DURATION
        <= exactValue (number64 (end_ shortToneSegment))
           - exactValue (number64 (start shortToneSegment)))%Q.
Proof.
  split; [|split; [|split]].
  - rewrite (detectPeaks_channel0 shortTone defaultThreshold (repeat one 551) eq_refl).
    vm_compute. reflexivity.
  - vm_compute. intros H. apply H. reflexivity.
  - vm_compute. reflexivity.
  - vm_compute. intros H. apply H. reflexivity.
Qed.

(** C6.  On a buffer whose samples are all zero, of any length, and with any
    threshold above zero, [detectPeaks] returns no segment. *)
Theorem detectPeaks_silence
    (audioBuffer : AudioBuffer) (threshold : float) (data : list float) :
  nth_error (channels audioBuffer) 0 = Some data ->
  Forall (fun x => is_zero x = true) data ->
  (zero <? threshold)%float = true ->
  detectPeaks audioBuffer threshold = Ok [].
Proof.
  intros Hdata Hzero Hthreshold.
  rewrite (detectPeaks_channel0 _ _ _ Hdata).
  rewrite (detect_silent data (sampleRate audioBuffer) threshold Hzero Hthreshold).
  reflexivity.
Qed.

Lemma detectPeaks_silence_witness :
  detectPeaks silence defaultThreshold = Ok [].
Proof.
  apply (detectPeaks_silence silence defaultThreshold
           (repeat zero 300 ++ repeat neg_zero 300)).
  - reflexivity.
  - apply Forall_forall. intros x Hx. apply in_app_or in Hx.
    destruct Hx as [Hx | Hx]; apply repeat_spec in Hx; subst x; reflexivity.
  - reflexivity.
Defined.

(** C7, as the code behaves.  On the scenario A buffer with threshold 0.1 the
    detector returns exactly one segment, from sample 3370 to sample 7291:
    the windows that hold at least ten samples of the burst have an RMS above
    0.1, the first of them starts at 4570 and the last at 4890.  The
    amplitude is the RMS of a window that holds the whole burst. *)
Theorem scenarioA_one_segment :
  detectPeaks scenarioA defaultThreshold
  = Ok [ {| start := 3370 # 48000; end_ := 7291 # 48000;
            amplitude := sqrt (25 / 240)%float |} ].
Proof.
  rewrite (detectPeaks_channel0 scenarioA defaultThreshold scenarioAData eq_refl).
  simpl sampleRate. rewrite scenarioA_detect. reflexivity.
Qed.

(** C7, as stated, fails: the detector does not return zero segments on the
    scenario A buffer. *)
Lemma scenarioA_not_empty :
  detectPeaks scenarioA defaultThreshold <> Ok [].
Proof.
  rewrite (detectPeaks_channel0 scenarioA defaultThreshold scenarioAData eq_refl).
  simpl sampleRate. rewrite scenarioA_detect. discriminate.
Qed.

(** C8, as the code behaves.  [sliceAudio] checks no bound.  It takes
    [sampleStart = floor(start * sampleRate)] and
    [sampleDuration = floor((end - start) * sampleRate)], the difference and
    the two products being binary64 numbers.  For a duration of at least one
    sample it returns a new buffer, at the same rate, whose every channel
    holds, for each [i] below [sampleDuration], the sample of that channel at
    [sampleStart + i], and NaN where the channel has no such sample.  When
    these indices lie within a channel, that is exactly the samples of the
    channel from [sampleStart] on.  No call throws [RangeError]. *)
Theorem sliceAudio_extracts (audioBuffer : AudioBuffer) (start end_ : float)
    (sampleStart sampleDuration : Z) :
  JS.Math_floor (start * JS.of_Z (sampleRate audioBuffer)) = Some sampleStart ->
  JS.Math_floor ((end_ - start) * JS.of_Z (sampleRate audioBuffer))
  = Some sampleDuration ->
  1 <= numberOfChannels audioBuffer ->
  0 < sampleRate audioBuffer ->
  1 <= sampleDuration < 2 ^ 32 ->
  sliceAudio audioBuffer start end_
  = Ok {| sampleRate := sampleRate audioBuffer;
          channels := map (fun c => samplesFrom c sampleStart sampleDuration)
                        (channels audioBuffer) |}
  /\ (forall channelData,
        In channelData (channels audioBuffer) ->
        0 <= sampleStart ->
        sampleStart + sampleDuration <= JS.length channelData ->
        samplesFrom channelData sampleStart sampleDuration
        = firstn (Z.to_nat sampleDuration)
            (skipn (Z.to_nat sampleStart) channelData))
  /\ (forall other start' end', sliceAudio other start' end' <> Throw RangeError).
Proof.
  intros Hstart Hduration Hchannels Hrate Hlength.
  split; [|split].
  - exact (sliceAudio_spec audioBuffer start end_ sampleStart sampleDuration
             Hstart Hduration Hchannels Hlength Hrate).
  - intros channelData _ Hs He.
    exact (samplesFrom_in_bounds channelData sampleStart sampleDuration Hs He).
  - exact sliceAudio_no_RangeError.
Qed.

Lemma sliceAudio_extracts_witness :
  sliceAudio fourSamples (number64 (1 # 48000)) (number64 (3 # 48000))
  = Ok {| sampleRate := 48000; channels := [[2; 3]%float; [6; 7]%float] |}.
Proof.
  refine (proj1 (sliceAudio_extracts fourSamples (number64 (1 # 48000))
                   (number64 (3 # 48000)) 1 2 _ _ _ _ _)).
  - vm_compute. reflexivity.
  - vm_compute. reflexivity.
  - vm_compute. discriminate.
  - reflexivity.
  - vm_compute. split; [discriminate | reflexivity].
Defined.

(** C8, as stated, fails: from 3 / 48000 s to 5 / 48000 s at 48000 Hz the
    range is the 2 samples from sample 3 on, which exceeds a buffer of four
    samples, and the call returns a buffer, with NaN past the end, instead of
    throwing [RangeError]. *)
Lemma sliceAudio_past_end_returns :
  JS.Math_floor (number64 (3 # 48000) * JS.of_Z 48000) = Some 3
  /\ JS.Math_floor ((number64 (5 # 48000) - number64 (3 # 48000)) * JS.of_Z 48000)
     = Some 2
  /\ JS.length [1; 2; 3; 4]%float < 3 + 2
  /\ sliceAudio fourSamples (number64 (3 # 48000)) (number64 (5 # 48000))
     = Ok {| sampleRate := 48000;
             channels := [[4; nan]%float; [8; nan]%float] |}
  /\ sliceAudio fourSamples (number64 (3 # 48000)) (number64 (5 # 48000))
     <> Throw RangeError.
Proof.
  split; [vm_compute; reflexivity|]. split; [vm_compute; reflexivity|].
  split; [reflexivity|]. split; [vm_compute; reflexivity|].
  vm_compute. discriminate.
Qed.

(** C9, as the code behaves.  Neighbouring segments are separated by the
    exclusion gap in samples: the end of a segment and the start of the next
    one are the quotients by the sample rate of two sample indices [e] and
    [s], and [s] is at least [e + floor(MIN_PEAK_DISTANCE * sampleRate)]. *)
Theorem detectPeaks_exclusion_gap
    (audioBuffer : AudioBuffer) (threshold : float) (peaks : list Peak)
    (i : nat) (p q : Peak) :
  0 < sampleRate audioBuffer ->
  detectPeaks audioBuffer threshold = Ok peaks ->
  nth_error peaks i = Some p ->
  nth_error peaks (S i) = Some q ->
  exists e s : Z,
    end_ p = (inject_Z e / inject_Z (sampleRate audioBuffer))%Q
    /\ start q = (inject_Z s / inject_Z (sampleRate audioBuffer))%Q
    /\ number64 (end_ p) = (JS.of_Z e / JS.of_Z (sampleRate audioBuffer))%float
    /\ number64 (start q) = (JS.of_Z s / JS.of_Z (sampleRate audioBuffer))%float
    /\ e + toSamples MIN_PEAK_DISTANCE (sampleRate audioBuffer) <= s.
Proof.
  intros Hrate Hrun Hp Hq.
  destruct (detectPeaks_Ok _ _ _ Hrun) as (data & Hdata & Hpeaks).
  destruct (built_indices data (sampleRate audioBuffer) p Hrate
              (detectPeaks_built _ _ _ _ _ Hrate Hdata Hrun (nth_error_In _ _ Hp)))
    as (sp & ep & _ & Hep & _ & Hep64 & _ & _).
  destruct (built_indices data (sampleRate audioBuffer) q Hrate
              (detectPeaks_built _ _ _ _ _ Hrate Hdata Hrun (nth_error_In _ _ Hq)))
    as (sq & eq & Hsq & _ & Hsq64 & _ & _ & _).
  exists ep, sq. repeat split; try assumption.
  rewrite Hpeaks in Hp, Hq.
  destruct (detect_invariant data (sampleRate audioBuffer) threshold Hrate)
    as [Hgap _].
  pose proof (Hgap i p q Hp Hq) as Hsep. unfold separated in Hsep.
  rewrite Hep, Hsq, <- (time_add (sampleRate audioBuffer)) in Hsep.
  exact (time_le_inv _ _ _ Hrate Hsep).
Qed.

Lemma detectPeaks_exclusion_gap_witness :
  exists e s : Z,
    end_ firstBurst = (inject_Z e / inject_Z 1000)%Q
    /\ start secondCloseBurst = (inject_Z s / inject_Z 1000)%Q
    /\ number64 (end_ firstBurst) = (JS.of_Z e / JS.of_Z 1000)%float
    /\ number64 (start secondCloseBurst) = (JS.of_Z s / JS.of_Z 1000)%float
    /\ e + toSamples MIN_PEAK_DISTANCE 1000 <= s.
Proof.
  apply (detectPeaks_exclusion_gap closeBursts defaultThreshold
           (detect closeBurstsData 1000 defaultThreshold) 0
           firstBurst secondCloseBurst).
  - reflexivity.
  - reflexivity.
  - vm_compute. reflexivity.
  - vm_compute. reflexivity.
Defined.

(** C9, as stated, fails on the times that the code returns: the close
    bursts give the segments from sample 71 to sample 170 and from sample 220
    to sample 300, the gap is the 50 samples of [MIN_PEAK_DISTANCE] at
    1000 Hz, and the binary64 number 0.17 plus 50 / 1000 is above the
    binary64 number 0.22, whether the sum is made in binary64 or exactly. *)
Lemma closeBursts_gap_rounds :
  detectPeaks closeBursts defaultThreshold = Ok [firstBurst; secondCloseBurst]
  /\ toSamples MIN_PEAK_DISTANCE 1000 = 50
  /\ (number64 (end_ firstBurst) + JS.of_Z 50 / JS.of_Z 1000
      <=? number64 (start secondCloseBurst))%float = false
  /\ ~ (exactValue (number64 (end_ firstBurst)) + inject_Z 50 / inject_Z 1000
        <= exactValue (number64 (start secondCloseBurst)))%Q.
Proof.
  split; [|split; [|split]].
  - rewrite (detectPeaks_channel0 closeBursts defaultThreshold closeBurstsData eq_refl).
    vm_compute. reflexivity.
  - reflexivity.
  - vm_compute. reflexivity.
  - vm_compute. intros H. apply H. reflexivity.
Qed.

(** C10.  The amplitude of every segment that [detectPeaks] returns is
    strictly above the threshold. *)
Theorem detectPeaks_amplitude_above_threshold
    (audioBuffer : AudioBuffer) (threshold : float) (peaks : list Peak) (p : Peak) :
  detectPeaks audioBuffer threshold = Ok peaks ->
  In p peaks ->
  (threshold <? amplitude p)%float = true.
Proof.
  intros Hrun Hp.
  destruct (detectPeaks_Ok _ _ _ Hrun) as (data & _ & ->).
  pose proof (detect_loud data (sampleRate audioBuffer) threshold) as Hloud.
  rewrite Forall_forall in Hloud. exact (Hloud p Hp).
Qed.

Lemma detectPeaks_amplitude_above_threshold_witness :
  (defaultThreshold <? one)%float = true.
Proof.
  apply (detectPeaks_amplitude_above_threshold twoBursts defaultThreshold
           (detect twoBurstsData 1000 defaultThreshold)
           {| start := 71 # 1000; end_ := 170 # 1000; amplitude := one |}).
  - reflexivity.
  - vm_compute. left. reflexivity.
Defined.

(** * Further properties of the code *)

(** ** Windows at or below the threshold *)

Section Quiet.

Variable data : list float.
Variable sampleRate : Z.
Variable threshold : float.
Hypothesis quiet : forall i, 0 <= i < JS.length data ->
  (threshold <? calculateRMS data i (rmsWindowSize sampleRate))%float = false.

Lemma loop_quiet (n : nat) : forall (i : Z) (st : DetectorState),
  0 <= i -> i + Z.of_nat n <= JS.length data -> isInPeak st = false ->
  loop data sampleRate threshold n i st = st.
Proof.
  induction n as [|n IH]; intros i st Hi Hn Hin; simpl; [reflexivity|].
  assert (Hstep : step data sampleRate threshold st i
                    (calculateRMS data i (rmsWindowSize sampleRate)) = st).
  { unfold step. rewrite Hin, quiet by lia. simpl.
    rewrite andb_false_r. reflexivity. }
  rewrite Hstep. apply IH; [lia | lia | exact Hin].
Qed.

Lemma detect_quiet : detect data sampleRate threshold = [].
Proof.
  unfold detect. rewrite loop_quiet; [reflexivity | lia | unfold JS.length; lia |].
  reflexivity.
Qed.

End Quiet.

(** Below 200 Hz the RMS window has no sample, every RMS is NaN, and nothing
    is above the threshold. *)
Lemma detect_low_rate (data : list float) (sampleRate : Z) (threshold : float) :
  0 < sampleRate < 200 -> detect data sampleRate threshold = [].
Proof.
  intros Hrate. apply detect_quiet. intros i Hi.
  assert (Hw : rmsWindowSize sampleRate = 0).
  { unfold rmsWindowSize, RMS_WINDOW. rewrite toSamples_quotient.
    apply Z.div_small. lia. }
  rewrite Hw.
  assert (Hnan : is_nan (calculateRMS data i 0) = true).
  { unfold calculateRMS.
    replace (Z.min (i + 0) (JS.length data) - i) with 0 by lia. reflexivity. }
  apply Float64.is_nan_spec in Hnan. rewrite ltb_spec, Hnan.
  unfold SFltb. destruct (Prim2SF threshold); reflexivity.
Qed.

(** ** Order on binary64 *)

Lemma SFcompare_antisym (x y : spec_float) :
  SFcompare y x = option_map CompOpp (SFcompare x y).
Proof.
  destruct x as [sx | [|] | | [|] mx ex];
    destruct y as [sy | [|] | | [|] my ey]; simpl; try reflexivity;
    rewrite (Z.compare_antisym ex ey);
    destruct (ex ?= ey); simpl; try reflexivity;
    rewrite (eq_sym (Pos.compare_cont_antisym mx my Eq)
             : Pos.compare_cont Eq my mx = CompOpp (Pos.compare_cont Eq mx my));
    destruct (Pos.compare_cont Eq mx my); reflexivity.
Qed.

(** What is at or below something is not above it. *)
Lemma leb_not_ltb (x t : float) :
  (x <=? t)%float = true -> (t <? x)%float = false.
Proof.
  rewrite leb_spec, ltb_spec. unfold SFleb, SFltb.
  rewrite (SFcompare_antisym (Prim2SF x) (Prim2SF t)).
  destruct (SFcompare (Prim2SF x) (Prim2SF t)) as [[| |]|]; simpl;
    try discriminate; reflexivity.
Qed.

Lemma ltb_leb (a b : float) : (a <? b)%float = true -> (a <=? b)%float = true.
Proof.
  rewrite leb_spec, ltb_spec. unfold SFleb, SFltb.
  destruct (SFcompare (Prim2SF a) (Prim2SF b)) as [[| |]|];
    try discriminate; reflexivity.
Qed.

Lemma leb_is_number (a b : float) :
  (a <=? b)%float = true -> is_nan a = false /\ is_nan b = false.
Proof.
  rewrite leb_spec. unfold SFleb. intros H.
  split.
  - destruct (is_nan a) eqn:E; [|reflexivity].
    apply Float64.is_nan_spec in E. rewrite E in H. discriminate.
  - destruct (is_nan b) eqn:E; [|reflexivity].
    apply Float64.is_nan_spec in E. rewrite E in H.
    destruct (Prim2SF a); discriminate.
Qed.

Lemma SFcompare_Eq_finite (s : bool) (m : positive) (e : Z) (y : spec_float) :
  SFcompare (S754_finite s m e) y = Some Eq -> y = S754_finite s m e.
Proof.
  destruct y as [sy | sy | | sy my ey]; simpl;
    try (destruct s; discriminate); try (destruct sy; discriminate).
  destruct s, sy; try discriminate;
    destruct (e ?= ey) eqn:He; try discriminate;
    apply Z.compare_eq in He; subst ey; intros H;
    injection H as H.
  - destruct (Pos.compare_cont Eq m my) eqn:Hm; try discriminate.
    apply Pos.compare_eq in Hm. subst. reflexivity.
  - apply Pos.compare_eq in H. subst. reflexivity.
Qed.

(** At or above, and not above: the same number, when one of them is
    neither a zero nor an infinity. *)
Lemma leb_not_ltb_eq (a b : float) (s : bool) (m : positive) (e : Z) :
  Prim2SF a = S754_finite s m e ->
  (a <=? b)%float = true -> (a <? b)%float = false -> b = a.
Proof.
  intros Ha. rewrite leb_spec, ltb_spec. unfold SFleb, SFltb. intros Hle Hlt.
  apply Prim2SF_inj. rewrite Ha. apply SFcompare_Eq_finite. rewrite <- Ha.
  destruct (SFcompare (Prim2SF a) (Prim2SF b)) as [[| |]|];
    try discriminate; reflexivity.
Qed.

Lemma geb_not_gtb_eq (a b : float) (s : bool) (m : positive) (e : Z) :
  Prim2SF a = S754_finite s m e ->
  (b <=? a)%float = true -> (b <? a)%float = false -> b = a.
Proof.
  intros Ha. rewrite leb_spec, ltb_spec. unfold SFleb, SFltb. intros Hle Hlt.
  apply Prim2SF_inj. rewrite Ha. apply SFcompare_Eq_finite. rewrite <- Ha.
  rewrite (SFcompare_antisym (Prim2SF b) (Prim2SF a)).
  destruct (SFcompare (Prim2SF b) (Prim2SF a)) as [[| |]|];
    try discriminate; reflexivity.
Qed.








(** The floor of a number from 0 up to, and not including, 1. *)
Lemma Math_floor_below_one (x : float) :
  (0 <=? x)%float = true -> (x <? 1)%float = true -> JS.Math_floor x = Some 0.
Proof.
  rewrite leb_spec, ltb_spec. unfold SFleb, SFltb, JS.Math_floor.
  change (Prim2SF 0) with (S754_zero false).
  change (Prim2SF 1) with (S754_finite false 4503599627370496 (-52)).
  pose proof (Prim2SF_valid x) as Hvalid.
  destruct (Prim2SF x) as [s | [|] | | [|] m e]; cbn [SFcompare];
    try discriminate; try reflexivity.
  intros _ Hlt. f_equal.
  unfold valid_binary, bounded, canonical_mantissa, fexp in Hvalid.
  apply andb_prop in Hvalid as [Hcanon _]. apply Z.eqb_eq in Hcanon.
  assert (Hdigits : Zpos (digits2_pos m) <= 53).
  { unfold FloatOps.prec, FloatOps.emax, emin in Hcanon.
    change (IntDef.Z.max ?a ?b) with (Z.max a b) in Hcanon. lia. }
  clear Hcanon.
  rewrite Float64.digits2_pos_size in Hdigits.
  assert (Hm : Zpos m < 2 ^ 53).
  { pose proof (Pos.size_gt m) as Hs.
    apply Pos2Z.pos_lt_pos in Hs. rewrite Pos2Z.inj_pow in Hs.
    eapply Z.lt_le_trans; [exact Hs|]. apply Z.pow_le_mono_r; lia. }
  assert (He : e <= -53 \/ (e = -52 /\ Zpos m < 2 ^ 52)).
  { destruct (e ?= -52) eqn:Ee; try discriminate Hlt.
    - right. split; [apply Z.compare_eq, Ee|].
      destruct (Pos.compare_cont Eq m 4503599627370496) eqn:C;
        try discriminate Hlt.
      apply (Pos2Z.pos_lt_pos m 4503599627370496). exact C.
    - left. change (e < -52) in Ee. lia. }
  assert (Hneg : e < 0) by lia.
  rewrite <- (Z.opp_involutive e), Z.shiftl_opp_r, Z.shiftr_div_pow2 by lia.
  apply Z.div_small. split; [lia|].
  destruct He as [He | [-> Hm52]]; [|exact Hm52].
  eapply Z.lt_le_trans; [exact Hm|]. apply Z.pow_le_mono_r; lia.
Qed.

(** ** The clamp of the encoder *)

Lemma Math_min_one (x : float) :
  (1 <=? x)%float = true -> Math_min 1 x = 1%float.
Proof.
  intros H. destruct (leb_is_number _ _ H) as [_ Hx].
  unfold Math_min. rewrite Hx. simpl.
  destruct (1 <? x)%float eqn:Hlt; [reflexivity|].
  rewrite (leb_not_ltb _ _ H). simpl.
  exact (leb_not_ltb_eq 1 x _ _ _ eq_refl H Hlt).
Qed.

Lemma below_minus_one_below_one (x : float) :
  (x <=? -1)%float = true -> (x <? 1)%float = true.
Proof.
  rewrite leb_spec, ltb_spec. unfold SFleb, SFltb.
  change (Prim2SF (-1)) with (S754_finite true 4503599627370496 (-52)).
  change (Prim2SF 1) with (S754_finite false 4503599627370496 (-52)).
  intros H.
  destruct (Prim2SF x) as [s | [|] | | [|] m e];
    try reflexivity; discriminate H.
Qed.

Lemma clamp_minus_one (x : float) :
  (x <=? -1)%float = true -> JS.Math_max (-1) (Math_min 1 x) = (-1)%float.
Proof.
  intros H. destruct (leb_is_number _ _ H) as [Hx _].
  assert (Hmin : Math_min 1 x = x).
  { unfold Math_min. rewrite Hx. simpl.
    pose proof (below_minus_one_below_one x H) as Hlt.
    rewrite (leb_not_ltb x 1 (ltb_leb _ _ Hlt)), Hlt. reflexivity. }
  rewrite Hmin. unfold JS.Math_max. rewrite Hx. simpl.
  rewrite (leb_not_ltb _ _ H).
  destruct (x <? -1)%float eqn:Hlt; [reflexivity|].
  rewrite (geb_not_gtb_eq (-1) x _ _ _ eq_refl H Hlt). reflexivity.
Qed.

(** ** Stores and reads of a [DataView] *)

Lemma littleEndian_length (size : nat) : forall value,
  List.length (DataView.littleEndian size value) = size.
Proof. induction size as [|n IH]; intros v; simpl; [reflexivity | rewrite IH; reflexivity]. Qed.

Lemma fromLittleEndian_littleEndian (size : nat) : forall value,
  0 <= value < 2 ^ (8 * Z.of_nat size) ->
  DataView.fromLittleEndian (DataView.littleEndian size value) = value.
Proof.
  induction size as [|n IH]; intros v Hv.
  - simpl in *. lia.
  - cbn [DataView.littleEndian DataView.fromLittleEndian].
    rewrite IH; [pose proof (Z.div_mod v 256); lia|].
    replace (8 * Z.of_nat (S n)) with (8 + 8 * Z.of_nat n) in Hv by lia.
    rewrite Z.pow_add_r in Hv by lia. change (2 ^ 8) with 256 in Hv.
    split; [apply Z.div_pos; lia | apply Z.div_lt_upper_bound; lia].
Qed.

Lemma uint32_value (value : Z) :
  DataView.fromLittleEndian (uint32 value) = value mod 2 ^ 32.
Proof.
  unfold uint32. apply (fromLittleEndian_littleEndian 4).
  apply Z.mod_pos_bound. reflexivity.
Qed.

Lemma uint16_value (value : Z) :
  DataView.fromLittleEndian (uint16 value) = value mod 2 ^ 16.
Proof.
  unfold uint16. apply (fromLittleEndian_littleEndian 2).
  apply Z.mod_pos_bound. reflexivity.
Qed.

Lemma toInt16_mod (value : Z) :
  - 2 ^ 15 <= value < 2 ^ 15 -> DataView.toInt16 (value mod 2 ^ 16) = value.
Proof.
  intros H. unfold DataView.toInt16.
  destruct (Z.leb_spec (2 ^ 15) (value mod 2 ^ 16)) as [Hs | Hs].
  - destruct (Z.lt_ge_cases value 0) as [Hn | Hn].
    + rewrite <- (Z.mod_add value 1 (2 ^ 16)) by lia.
      rewrite Z.mod_small by lia. lia.
    + rewrite Z.mod_small in Hs by lia. lia.
  - destruct (Z.lt_ge_cases value 0) as [Hn | Hn].
    + rewrite <- (Z.mod_add value 1 (2 ^ 16)) in Hs by lia.
      rewrite Z.mod_small in Hs by lia. lia.
    + apply Z.mod_small. lia.
Qed.

Lemma store_length (bytes : list Z) : forall (view : list Z) (offset : nat),
  List.length (DataView.store view offset bytes) = List.length view.
Proof.
  induction bytes as [|b bytes IH]; intros view offset; simpl; [reflexivity|].
  rewrite IH, update_length. reflexivity.
Qed.

(** A store keeps the size of the buffer. *)
Lemma set_byteLength (view view' : list Z) (offset : Z) (size : nat) (value : Z) :
  DataView.set view offset size value = Ok view' ->
  DataView.byteLength view' = DataView.byteLength view.
Proof.
  unfold DataView.set.
  destruct ((offset <? 0) || (DataView.byteLength view <? offset + Z.of_nat size));
    [discriminate|].
  intros H.
  assert (E : view' = DataView.store view (Z.to_nat offset)
                        (DataView.littleEndian size
                           (value mod 2 ^ (8 * Z.of_nat size))))
    by congruence.
  rewrite E. unfold DataView.byteLength. rewrite store_length. reflexivity.
Qed.

Lemma store_middle (bytes : list Z) : forall (done old rest : list Z),
  List.length old = List.length bytes ->
  DataView.store (done ++ old ++ rest) (List.length done) bytes
  = done ++ bytes ++ rest.
Proof.
  induction bytes as [|b bytes IH]; intros done old rest Hlen.
  - destruct old; [reflexivity | discriminate].
  - destruct old as [|o old]; [discriminate|]. injection Hlen as Hlen.
    simpl DataView.store. simpl app. rewrite update_middle.
    change (done ++ b :: old ++ rest) with (done ++ [b] ++ old ++ rest).
    rewrite app_assoc.
    replace (S (List.length done)) with (List.length (done ++ [b]))
      by (rewrite length_app; simpl; lia).
    rewrite (IH (done ++ [b]) old rest Hlen), <- app_assoc. reflexivity.
Qed.

(** A store in the middle of a view replaces the bytes there. *)
Lemma set_middle (done old rest : list Z) (size : nat) (value : Z) :
  List.length old = size ->
  DataView.set (done ++ old ++ rest) (Z.of_nat (List.length done)) size value
  = Ok (done ++ DataView.littleEndian size (value mod 2 ^ (8 * Z.of_nat size))
        ++ rest).
Proof.
  intros Hold. unfold DataView.set, DataView.byteLength.
  rewrite !length_app, Hold.
  replace (Z.of_nat (List.length done) <? 0) with false
    by (symmetry; apply Z.ltb_ge; lia).
  replace (Z.of_nat (List.length done + (size + List.length rest))
           <? Z.of_nat (List.length done) + Z.of_nat size) with false
    by (symmetry; apply Z.ltb_ge; lia).
  simpl orb. cbv iota. rewrite Nat2Z.id.
  rewrite store_middle by (rewrite littleEndian_length; exact Hold).
  reflexivity.
Qed.

(** A store just past what is written, with room left, appends. *)
Lemma set_next (done : list Z) (size k : nat) (value : Z) :
  DataView.set (done ++ repeat 0 (size + k)) (Z.of_nat (List.length done)) size value
  = Ok ((done ++ DataView.littleEndian size (value mod 2 ^ (8 * Z.of_nat size)))
        ++ repeat 0 k).
Proof.
  rewrite repeat_app, set_middle by apply repeat_length.
  rewrite app_assoc. reflexivity.
Qed.

(** A read inside the first part of a view. *)
Lemma get_prefix (header data : list Z) (offset : Z) (size : nat) :
  0 <= offset -> offset + Z.of_nat size <= Z.of_nat (List.length header) ->
  DataView.get (header ++ data) offset size
  = Ok (DataView.fromLittleEndian (firstn size (skipn (Z.to_nat offset) header))).
Proof.
  intros Ho Hs. unfold DataView.get, DataView.byteLength.
  rewrite length_app.
  destruct (Z.ltb_spec offset 0); [lia|].
  destruct (Z.ltb_spec (Z.of_nat (List.length header + List.length data))
              (offset + Z.of_nat size)); [lia|].
  simpl orb. cbv iota. rewrite skipn_app, firstn_app, length_skipn.
  replace (size - (List.length header - Z.to_nat offset))%nat with O by lia.
  rewrite firstn_O, app_nil_r. reflexivity.
Qed.

(** A read in what follows the first part of a view. *)
Lemma get_suffix (header data : list Z) (k : nat) (size : nat) :
  DataView.get (header ++ data) (Z.of_nat (List.length header + k)) size
  = DataView.get data (Z.of_nat k) size.
Proof.
  unfold DataView.get, DataView.byteLength. rewrite length_app.
  destruct (Z.ltb_spec (Z.of_nat (List.length header + k)) 0); [lia|].
  destruct (Z.ltb_spec (Z.of_nat k) 0); [lia|].
  destruct (Z.ltb_spec (Z.of_nat (List.length header + List.length data))
              (Z.of_nat (List.length header + k) + Z.of_nat size));
    destruct (Z.ltb_spec (Z.of_nat (List.length data))
                (Z.of_nat k + Z.of_nat size)); try lia; [reflexivity|].
  simpl orb. cbv iota. rewrite !Nat2Z.id, skipn_app.
  rewrite skipn_all2 by lia.
  replace (List.length header + k - List.length header)%nat with k by lia.
  reflexivity.
Qed.

Lemma get_at (view bytes rest : list Z) (k size : nat) :
  skipn k view = bytes ++ rest -> List.length bytes = size -> (0 < size)%nat ->
  DataView.get view (Z.of_nat k) size = Ok (DataView.fromLittleEndian bytes).
Proof.
  intros Hskip Hlen Hsize. unfold DataView.get, DataView.byteLength.
  pose proof (length_skipn k view) as Hl. rewrite Hskip, length_app in Hl.
  destruct (Z.ltb_spec (Z.of_nat k) 0); [lia|].
  destruct (Z.ltb_spec (Z.of_nat (List.length view)) (Z.of_nat k + Z.of_nat size));
    [lia|].
  simpl orb. cbv iota. rewrite Nat2Z.id, Hskip, firstn_app.
  replace (size - List.length bytes)%nat with O by lia.
  rewrite firstn_O, app_nil_r, <- Hlen, firstn_all. reflexivity.
Qed.

(** ** [writeString] *)

Lemma get_charCodes (s : string) : forall i : nat,
  option_map (fun c => Z.of_N (N_of_ascii c)) (String.get i s)
  = nth_error (charCodes s) i.
Proof.
  induction s as [|c s IH]; intros [|i]; simpl; try reflexivity. apply IH.
Qed.

Lemma charCodes_length (s : string) : List.length (charCodes s) = String.length s.
Proof.
  unfold charCodes. rewrite length_map.
  induction s as [|c s IH]; simpl; [reflexivity | rewrite IH; reflexivity].
Qed.

Lemma charCodes_byte (s : string) (c : Z) : In c (charCodes s) -> 0 <= c < 256.
Proof.
  unfold charCodes. intros H. apply in_map_iff in H. destruct H as (a & <- & _).
  pose proof (N_ascii_bounded a). lia.
Qed.

Lemma skipn_nth_error {A : Type} (l : list A) : forall (i : nat) (x : A),
  nth_error l i = Some x -> skipn i l = x :: skipn (S i) l.
Proof.
  induction l as [|y l IH]; intros [|i] x H; try discriminate.
  - injection H as <-. reflexivity.
  - simpl in H. apply (IH i x H).
Qed.

Lemma writeStringFrom_middle (offset : Z) (s : string) (n : nat) :
  forall (i : nat) (done old rest : list Z),
  (i + n = String.length s)%nat ->
  Z.of_nat (List.length done) = offset + Z.of_nat i ->
  List.length old = n ->
  writeStringFrom (done ++ old ++ rest) offset s (Z.of_nat i) n
  = Ok (done ++ skipn i (charCodes s) ++ rest).
Proof.
  induction n as [|n IH]; intros i done old rest Hn Hoff Hold.
  - destruct old; [|discriminate]. simpl.
    rewrite skipn_all2 by (rewrite charCodes_length; lia). reflexivity.
  - destruct old as [|o old]; [discriminate|]. injection Hold as Hold.
    cbn [writeStringFrom]. unfold DataView.setUint8.
    destruct (nth_error (charCodes s) i) as [c|] eqn:Hc.
    2:{ apply nth_error_None in Hc. rewrite charCodes_length in Hc. lia. }
    assert (Hcode : charCodeAt s (Z.of_nat i) = Some c).
    { unfold charCodeAt. destruct (Z.ltb_spec (Z.of_nat i) 0); [lia|].
      rewrite Nat2Z.id, get_charCodes. exact Hc. }
    rewrite Hcode, <- Hoff.
    change (done ++ (o :: old) ++ rest) with (done ++ [o] ++ old ++ rest).
    rewrite set_middle by reflexivity. cbn [bind].
    pose proof (charCodes_byte s c (nth_error_In _ _ Hc)) as Hbyte.
    change (2 ^ (8 * Z.of_nat 1)) with 256. simpl DataView.littleEndian.
    rewrite !(Z.mod_small c 256) by lia.
    replace (Z.of_nat i + 1) with (Z.of_nat (S i)) by lia.
    change (done ++ [c] ++ old ++ rest) with (done ++ [c] ++ (old ++ rest)).
    rewrite (app_assoc done [c]).
    rewrite (IH (S i) (done ++ [c]) old rest);
      [| lia | rewrite length_app; simpl; lia | exact Hold].
    rewrite (skipn_nth_error _ _ _ Hc), <- !app_assoc. reflexivity.
Qed.

(** [writeString] just past what is written, with room left, appends the
    character codes of the string. *)
Lemma writeString_next (done : list Z) (s : string) (k : nat) :
  writeString (done ++ repeat 0 (String.length s + k)) (Z.of_nat (List.length done)) s
  = Ok ((done ++ charCodes s) ++ repeat 0 k).
Proof.
  pose proof (writeStringFrom_middle (Z.of_nat (List.length done)) s
                (String.length s) 0 done (repeat 0 (String.length s))
                (repeat 0 k) eq_refl (eq_sym (Z.add_0_r _)) (repeat_length _ _))
    as H.
  cbn [Z.of_nat skipn] in H.
  unfold writeString. rewrite repeat_app, H, app_assoc. reflexivity.
Qed.

Lemma writeStringFrom_out_of_range (s : string) (offset : Z) (n : nat) :
  forall (view : list Z) (i : Z),
  (0 < n)%nat ->
  offset + i < 0 \/ DataView.byteLength view < offset + i + Z.of_nat n ->
  writeStringFrom view offset s i n = Throw RangeError.
Proof.
  induction n as [|n IH]; intros view i Hn Hout; [lia|].
  cbn [writeStringFrom]. unfold DataView.setUint8.
  destruct (DataView.set view (offset + i) 1
              match charCodeAt s i with Some c => c | None => 0 end)
    as [view' | e] eqn:Hset.
  - cbn [bind]. pose proof (set_byteLength _ _ _ _ _ Hset) as Hlen.
    unfold DataView.set in Hset.
    destruct (Z.ltb_spec (offset + i) 0); [discriminate|].
    destruct (Z.ltb_spec (DataView.byteLength view) (offset + i + Z.of_nat 1));
      [discriminate|].
    apply IH; [|rewrite Hlen]; lia.
  - cbn [bind]. unfold DataView.set in Hset.
    destruct ((offset + i <? 0)
              || (DataView.byteLength view <? offset + i + Z.of_nat 1));
      [congruence | discriminate].
Qed.

(** ** The blob of [audioBufferToWav] *)

Lemma pushChannels_all (buffer : AudioBuffer) (n : nat) :
  forall (done rest : list (list float)),
  channels buffer = done ++ rest -> List.length rest = n ->
  pushChannels buffer done (Z.of_nat (List.length done)) n = Ok (channels buffer).
Proof.
  induction n as [|n IH]; intros done rest Hch Hrest.
  - destruct rest; [|discriminate]. rewrite app_nil_r in Hch. simpl. congruence.
  - destruct rest as [|c rest]; [discriminate|]. injection Hrest as Hrest.
    cbn [pushChannels]. rewrite (getChannelData_middle _ _ _ _ Hch). cbn [bind].
    replace (Z.of_nat (List.length done) + 1)
      with (Z.of_nat (List.length (done ++ [c])))
      by (rewrite length_app; simpl; lia).
    apply (IH (done ++ [c]) rest); [rewrite <- app_assoc; exact Hch | exact Hrest].
Qed.

Lemma sampleAt_middle (done rest : list (list float)) (c : list float) (pos : Z) :
  sampleAt (done ++ c :: rest) (Z.of_nat (List.length done)) pos = JS.get c pos.
Proof.
  unfold sampleAt. destruct (Z.ltb_spec (Z.of_nat (List.length done)) 0); [lia|].
  rewrite Nat2Z.id, nth_error_middle. reflexivity.
Qed.

Lemma writeFrame_next (channels : list (list float)) (pos : Z) (n : nat) :
  forall (done rest : list (list float)) (written : list Z) (k : nat),
  channels = done ++ rest -> List.length rest = n ->
  writeFrame (written ++ repeat 0 (2 * n + k)) channels pos
    (Z.of_nat (List.length written)) (Z.of_nat (List.length done)) n
  = Ok ((written ++ frameBytes rest pos) ++ repeat 0 k,
        Z.of_nat (List.length (written ++ frameBytes rest pos))).
Proof.
  induction n as [|n IH]; intros done rest written k Hch Hrest.
  - destruct rest; [|discriminate]. simpl. rewrite app_nil_r. reflexivity.
  - destruct rest as [|c rest]; [discriminate|]. injection Hrest as Hrest.
    cbn [writeFrame]. unfold DataView.setInt16.
    replace (2 * S n + k)%nat with (2 + (2 * n + k))%nat by lia.
    rewrite set_next. cbn [bind].
    rewrite Hch, sampleAt_middle.
    change (DataView.littleEndian 2 (truncate (scaleSample (JS.get c pos))
                                     mod 2 ^ (8 * Z.of_nat 2)))
      with (sampleBytes (JS.get c pos)).
    replace (Z.of_nat (List.length written) + 2)
      with (Z.of_nat (List.length (written ++ sampleBytes (JS.get c pos))))
      by (rewrite length_app; unfold sampleBytes, uint16;
          rewrite littleEndian_length; lia).
    replace (Z.of_nat (List.length done) + 1)
      with (Z.of_nat (List.length (done ++ [c])))
      by (rewrite length_app; simpl; lia).
    rewrite <- Hch.
    rewrite (IH (done ++ [c]) rest); [| rewrite <- app_assoc; exact Hch | exact Hrest].
    unfold frameBytes. cbn [flat_map]. rewrite <- !app_assoc. reflexivity.
Qed.

Lemma frameBytes_length (channels : list (list float)) (pos : Z) :
  List.length (frameBytes channels pos) = (2 * List.length channels)%nat.
Proof.
  unfold frameBytes. induction channels as [|c channels IH]; [reflexivity|].
  cbn [flat_map]. rewrite length_app, IH. unfold sampleBytes, uint16.
  rewrite littleEndian_length. simpl. lia.
Qed.

Lemma writeFrames_next (channels : list (list float)) (n : nat) :
  forall (pos : nat) (written : list Z) (k : nat),
  writeFrames (written ++ repeat 0 (2 * List.length channels * n + k)) channels
    (Z.of_nat (List.length channels)) (Z.of_nat pos)
    (Z.of_nat (List.length written)) n
  = Ok ((written
         ++ flat_map (fun pos => frameBytes channels (Z.of_nat pos)) (seq pos n))
        ++ repeat 0 k).
Proof.
  induction n as [|n IH]; intros pos written k.
  - simpl. rewrite Nat.mul_0_r, app_nil_r. reflexivity.
  - cbn [writeFrames]. rewrite Nat2Z.id.
    replace (2 * List.length channels * S n + k)%nat
      with (2 * List.length channels + (2 * List.length channels * n + k))%nat by lia.
    rewrite (writeFrame_next channels (Z.of_nat pos) (List.length channels)
               [] channels written _ eq_refl eq_refl).
    cbn [bind]. cbn [fst snd].
    replace (Z.of_nat pos + 1) with (Z.of_nat (S pos)) by lia.
    rewrite IH. cbn [flat_map seq]. rewrite <- !app_assoc. reflexivity.
Qed.

Ltac store_next size k :=
  unfold DataView.setUint32, DataView.setUint16;
  match goal with
  | |- bind (DataView.set (?d ++ repeat 0 _) _ _ ?v) ?K = ?R =>
      change (bind (DataView.set (d ++ repeat 0 (size + k))
                      (Z.of_nat (List.length d)) size v) K = R);
      rewrite set_next; cbn [bind]
  end.

Ltac string_next s k :=
  match goal with
  | |- bind (writeString (?d ++ repeat 0 _) _ _) ?K = ?R =>
      change (bind (writeString (d ++ repeat 0 (String.length s + k))
                      (Z.of_nat (List.length d)) s) K = R);
      rewrite writeString_next; cbn [bind]
  end.

Lemma frames_nonneg (buffer : AudioBuffer) : 0 <= frames buffer.
Proof. unfold frames, JS.length. destruct (channels buffer); lia. Qed.

(** The blob that [audioBufferToWav] returns: the header, then the frames.
    No store falls outside the buffer. *)
Lemma audioBufferToWav_bytes (buffer : AudioBuffer) :
  audioBufferToWav buffer
  = Ok (wavHeader (numberOfChannels buffer) (sampleRate buffer)
          (frames buffer * numberOfChannels buffer * 2)
        ++ wavData buffer).
Proof.
  unfold audioBufferToWav.
  pose proof (frames_nonneg buffer) as Hf.
  set (C := numberOfChannels buffer).
  set (L := frames buffer * C * 2).
  assert (HC : C = Z.of_nat (List.length (channels buffer))) by reflexivity.
  assert (HL : 0 <= L) by (unfold L; nia).
  set (l := Z.to_nat L).
  replace (repeat 0 (Z.to_nat (44 + L))) with ([] ++ repeat 0 (44 + l))
    by (apply (f_equal (repeat 0)); unfold l; lia).
  string_next "RIFF"%string (40 + l)%nat.
  store_next 4%nat (36 + l)%nat.
  string_next "WAVE"%string (32 + l)%nat.
  string_next "fmt "%string (28 + l)%nat.
  store_next 4%nat (24 + l)%nat.
  store_next 2%nat (22 + l)%nat.
  store_next 2%nat (20 + l)%nat.
  store_next 4%nat (16 + l)%nat.
  store_next 4%nat (12 + l)%nat.
  store_next 2%nat (10 + l)%nat.
  store_next 2%nat (8 + l)%nat.
  string_next "data"%string (4 + l)%nat.
  store_next 4%nat l.
  assert (Hpush : pushChannels buffer [] 0 (Z.to_nat C) = Ok (channels buffer)).
  { rewrite HC, Nat2Z.id.
    exact (pushChannels_all buffer _ [] (channels buffer) eq_refl eq_refl). }
  rewrite Hpush. cbn [bind].
  assert (Hl : l = (2 * List.length (channels buffer) * Z.to_nat (frames buffer) + 0)%nat).
  { unfold l, L. rewrite HC. lia. }
  rewrite Hl, HC.
  match goal with
  | |- writeFrames (?d ++ repeat 0 ?m) ?ch ?c _ _ ?n = ?R =>
      change (writeFrames (d ++ repeat 0 m) ch c (Z.of_nat O)
                (Z.of_nat (List.length d)) n = R)
  end.
  rewrite writeFrames_next. f_equal. rewrite app_nil_r.
  unfold wavHeader, wavData, uint32, uint16. rewrite <- !app_assoc. reflexivity.
Qed.

Lemma audioBufferToWav_Ok (buffer : AudioBuffer) (wav : list Z) :
  audioBufferToWav buffer = Ok wav ->
  wav = wavHeader (numberOfChannels buffer) (sampleRate buffer)
          (frames buffer * numberOfChannels buffer * 2)
        ++ wavData buffer.
Proof. rewrite audioBufferToWav_bytes. congruence. Qed.

Lemma wavHeader_length (numberOfChannels sampleRate length : Z) :
  List.length (wavHeader numberOfChannels sampleRate length) = 44%nat.
Proof. reflexivity. Qed.

Lemma wavData_length (buffer : AudioBuffer) :
  Z.of_nat (List.length (wavData buffer))
  = frames buffer * numberOfChannels buffer * 2.
Proof.
  unfold wavData, numberOfChannels.
  pose proof (frames_nonneg buffer) as Hf.
  rewrite <- (Z2Nat.id (frames buffer)) at 2 by exact Hf.
  generalize (Z.to_nat (frames buffer)) as n. intros n.
  generalize O as pos. induction n as [|n IH]; intros pos.
  - simpl. lia.
  - cbn [seq flat_map]. rewrite length_app, frameBytes_length, Nat2Z.inj_add, IH. lia.
Qed.

(** Blocks of one size: skipping whole blocks. *)
Lemma skipn_flat_map {A : Type} (f : A -> list Z) (m : nat) :
  (forall x, List.length (f x) = m) ->
  forall (l : list A) (j : nat),
    skipn (j * m) (flat_map f l) = flat_map f (skipn j l).
Proof.
  intros Hm. induction l as [|x l IH]; intros j.
  - rewrite !skipn_nil. reflexivity.
  - destruct j as [|j]; [reflexivity|].
    cbn [flat_map skipn Nat.mul]. rewrite skipn_app, Hm.
    rewrite skipn_all2 by (rewrite Hm; lia).
    replace (m + j * m - m)%nat with (j * m)%nat by lia.
    apply IH.
Qed.

(** Where the bytes of a sample lie in the audio data. *)
Lemma wavData_sample (buffer : AudioBuffer) (channelData : list float) (i pos : nat) :
  Z.of_nat pos < frames buffer ->
  nth_error (channels buffer) i = Some channelData ->
  exists rest,
    skipn (2 * (pos * List.length (channels buffer) + i)) (wavData buffer)
    = sampleBytes (JS.get channelData (Z.of_nat pos)) ++ rest.
Proof.
  intros Hpos Hc. unfold wavData.
  set (C := List.length (channels buffer)).
  set (n := Z.to_nat (frames buffer)).
  replace (2 * (pos * C + i))%nat with (i * 2 + pos * (2 * C))%nat by lia.
  rewrite <- skipn_skipn.
  rewrite (skipn_flat_map _ (2 * C))
    by (intros x; apply frameBytes_length).
  rewrite skipn_seq. replace (n - pos)%nat with (S (n - pos - 1)) by lia.
  cbn [seq flat_map]. rewrite Nat.add_0_l.
  rewrite skipn_app. unfold frameBytes at 1 2.
  rewrite (skipn_flat_map _ 2)
    by (intros x; unfold sampleBytes, uint16; apply littleEndian_length).
  rewrite (skipn_nth_error _ _ _ Hc). cbn [flat_map].
  rewrite <- app_assoc. eexists. reflexivity.
Qed.

(** ** The batch of [processAudio] *)







(** ** The running maximum *)

Section LoudestWindow.

Variable data : list float.
Variable sampleRate : Z.
Variable threshold : float.
Hypothesis sampleRate_pos : 0 < sampleRate.








End LoudestWindow.

(** ** The detector *)

(** X1.  Every segment that [detectPeaks] returns starts inside the buffer:
    its start is a time from 0 up to, and not including, the duration of
    channel 0.  At a sample rate of 20 Hz or more it is not empty: it ends
    after it starts. *)
Theorem detectPeaks_start_inside
    (audioBuffer : AudioBuffer) (threshold : float) (data : list float)
    (peaks : list Peak) (p : Peak) :
  0 < sampleRate audioBuffer ->
  nth_error (channels audioBuffer) 0 = Some data ->
  detectPeaks audioBuffer threshold = Ok peaks ->
  In p peaks ->
  (0 <= start p)%Q
  /\ (start p < inject_Z (JS.length data) / inject_Z (sampleRate audioBuffer))%Q
  /\ (20 <= sampleRate audioBuffer -> (start p < end_ p)%Q).
Proof.
  intros Hrate Hdata Hrun Hp.
  destruct (detectPeaks_built _ _ _ _ _ Hrate Hdata Hrun Hp)
    as (s & e & j & -> & Hs & Hlen & Hend & Hj).
  pose proof (rate_pos _ Hrate) as Hr. simpl.
  split; [|split].
  - apply Qle_shift_div_l; [exact Hr|]. rewrite Qmult_0_l.
    change 0%Q with (inject_Z 0). rewrite <- Zle_Qle. lia.
  - apply Qmult_lt_compat_r; [apply Qinv_lt_0_compat, Hr|].
    rewrite <- Zlt_Qlt. lia.
  - intros H20. apply Qmult_lt_compat_r; [apply Qinv_lt_0_compat, Hr|].
    rewrite <- Zlt_Qlt. pose proof (minSegment_pos _ H20). lia.
Qed.

Lemma detectPeaks_start_inside_witness :
  (0 <= start firstBurst)%Q
  /\ (start firstBurst < inject_Z (JS.length twoBurstsData) / inject_Z 1000)%Q
  /\ (20 <= 1000 -> (start firstBurst < end_ firstBurst)%Q).
Proof.
  apply (detectPeaks_start_inside twoBursts defaultThreshold twoBurstsData
           (detect twoBurstsData 1000 defaultThreshold) firstBurst).
  - reflexivity.
  - reflexivity.
  - reflexivity.
  - vm_compute. left. reflexivity.
Defined.

(** X2.  A segment ends inside the buffer, or it has exactly the minimum
    duration: when the post-peak buffer stops at the end of the data and the
    segment is shorter than [MIN_SEGMENT_DURATION], its end is moved to
    [start + MIN_SEGMENT_DURATION] (in samples) and no bound is applied
    again, so that such a segment may end after the end of the buffer. *)
Theorem detectPeaks_end_inside_or_minimum
    (audioBuffer : AudioBuffer) (threshold : float) (data : list float)
    (peaks : list Peak) (p : Peak) :
  0 < sampleRate audioBuffer ->
  nth_error (channels audioBuffer) 0 = Some data ->
  detectPeaks audioBuffer threshold = Ok peaks ->
  In p peaks ->
  (end_ p <= inject_Z (JS.length data) / inject_Z (sampleRate audioBuffer))%Q
  \/ ((end_ p - start p) * inject_Z (sampleRate audioBuffer)
      == inject_Z (toSamples MIN_SEGMENT_DURATION (sampleRate audioBuffer)))%Q.
Proof.
  intros Hrate Hdata Hrun Hp.
  destruct (detectPeaks_built _ _ _ _ _ Hrate Hdata Hrun Hp)
    as (s & e & j & -> & Hs & Hlen & [Hend | Hend] & Hj); simpl.
  - left. apply time_le; assumption.
  - right. rewrite (time_diff_samples _ Hrate). rewrite Hend. reflexivity.
Qed.

Lemma detectPeaks_end_inside_or_minimum_witness :
  (end_ lateBurstSegment
   <= inject_Z (JS.length lateBurstData) / inject_Z 1000)%Q
  \/ ((end_ lateBurstSegment - start lateBurstSegment) * inject_Z 1000
      == inject_Z (toSamples MIN_SEGMENT_DURATION 1000))%Q.
Proof.
  apply (detectPeaks_end_inside_or_minimum lateBurst defaultThreshold lateBurstData
           (detect lateBurstData 1000 defaultThreshold) lateBurstSegment).
  - reflexivity.
  - reflexivity.
  - reflexivity.
  - vm_compute. left. reflexivity.
Defined.

(** X3.  The number of segments is bounded by the length of the buffer: each
    segment but the last takes at least [MIN_SEGMENT_DURATION] and is followed
    by a gap of at least [MIN_PEAK_DISTANCE], both in samples. *)
Theorem detectPeaks_count
    (audioBuffer : AudioBuffer) (threshold : float) (data : list float)
    (peaks : list Peak) :
  0 < sampleRate audioBuffer ->
  nth_error (channels audioBuffer) 0 = Some data ->
  detectPeaks audioBuffer threshold = Ok peaks ->
  let period := toSamples MIN_SEGMENT_DURATION (sampleRate audioBuffer)
                + toSamples MIN_PEAK_DISTANCE (sampleRate audioBuffer) in
  (Z.of_nat (List.length peaks) - 1) * period <= JS.length data.
Proof.
  intros Hrate Hdata Hrun period.
  rewrite (detectPeaks_channel0 _ _ _ Hdata) in Hrun.
  assert (E : peaks = detect data (sampleRate audioBuffer) threshold) by congruence.
  rewrite E.
  destruct (detect_shape data (sampleRate audioBuffer) threshold Hrate) as [_ Hc].
  unfold period. fold (minSegmentSamples (sampleRate audioBuffer)).
  fold (minPeakDistanceSamples (sampleRate audioBuffer)). lia.
Qed.

Lemma detectPeaks_count_witness :
  (Z.of_nat (List.length (detect twoBurstsData 1000 defaultThreshold)) - 1)
  * (toSamples MIN_SEGMENT_DURATION 1000 + toSamples MIN_PEAK_DISTANCE 1000)
  <= JS.length twoBurstsData.
Proof.
  apply (detectPeaks_count twoBursts defaultThreshold twoBurstsData
           (detect twoBurstsData 1000 defaultThreshold)).
  - reflexivity.
  - reflexivity.
  - reflexivity.
Defined.



(** X5.  When no window of channel 0 has an RMS above the threshold, whatever
    the samples are, [detectPeaks] returns no segment. *)
Theorem detectPeaks_nothing_above_threshold
    (audioBuffer : AudioBuffer) (threshold : float) (data : list float) :
  nth_error (channels audioBuffer) 0 = Some data ->
  (forall i, 0 <= i < JS.length data ->
     (threshold <? calculateRMS data i (rmsWindowSize (sampleRate audioBuffer)))%float
     = false) ->
  detectPeaks audioBuffer threshold = Ok [].
Proof.
  intros Hdata Hquiet. rewrite (detectPeaks_channel0 _ _ _ Hdata).
  rewrite detect_quiet; [reflexivity | exact Hquiet].
Qed.

Lemma detectPeaks_nothing_above_threshold_witness :
  detectPeaks fourSamples 10 = Ok [].
Proof.
  apply (detectPeaks_nothing_above_threshold fourSamples 10 [1; 2; 3; 4]%float).
  - reflexivity.
  - intros i Hi. apply negb_true_iff.
    apply (range_check
             (fun i => negb (10 <? calculateRMS [1; 2; 3; 4]%float i
                                     (rmsWindowSize 48000))%float) 4);
      [vm_compute; reflexivity | exact Hi].
Defined.

(** X6.  Below 200 Hz [Math.floor(0.005 * sampleRate)] is 0: the RMS window
    is empty, every RMS is NaN, no comparison with the threshold holds, and
    [detectPeaks] returns no segment, whatever the samples and the threshold
    are. *)
Theorem detectPeaks_low_rate
    (audioBuffer : AudioBuffer) (threshold : float) (data : list float) :
  0 < sampleRate audioBuffer < 200 ->
  nth_error (channels audioBuffer) 0 = Some data ->
  detectPeaks audioBuffer threshold = Ok [].
Proof.
  intros Hrate Hdata. rewrite (detectPeaks_channel0 _ _ _ Hdata).
  rewrite detect_low_rate by exact Hrate. reflexivity.
Qed.

Lemma detectPeaks_low_rate_witness :
  detectPeaks lowRate zero = Ok [].
Proof.
  apply (detectPeaks_low_rate lowRate zero (repeat one 50)).
  - split; reflexivity.
  - reflexivity.
Defined.

(** X7.  With NaN as threshold no RMS is above the threshold, and
    [detectPeaks] returns no segment. *)
Theorem detectPeaks_nan_threshold
    (audioBuffer : AudioBuffer) (threshold : float) (data : list float) :
  nth_error (channels audioBuffer) 0 = Some data ->
  is_nan threshold = true ->
  detectPeaks audioBuffer threshold = Ok [].
Proof.
  intros Hdata Hnan. rewrite (detectPeaks_channel0 _ _ _ Hdata).
  rewrite detect_quiet; [reflexivity|].
  intros i _. apply Float64.is_nan_spec in Hnan. rewrite ltb_spec, Hnan.
  reflexivity.
Qed.

Lemma detectPeaks_nan_threshold_witness :
  detectPeaks twoBursts nan = Ok [].
Proof.
  apply (detectPeaks_nan_threshold twoBursts nan twoBurstsData).
  - reflexivity.
  - reflexivity.
Defined.

(** X8.  Leaving a peak always emits a segment: when the RMS is at or below
    the threshold while a peak is open, the iteration appends exactly one
    segment, closes the peak and moves [lastPeakIndex] to the end of that
    segment.  The last test, [peakEndIndex - peakStartIndex >=
    minSegmentSamples], never fails, because the end has just been moved to
    at least [minSegmentSamples] after the start. *)
Theorem step_leaving_emits (data : list float) (sampleRate : Z) (threshold : float)
    (st : DetectorState) (i : Z) (rms : float) :
  0 < sampleRate ->
  isInPeak st = true ->
  (rms <=? threshold)%float = true ->
  exists p,
    peaks (step data sampleRate threshold st i rms) = peaks st ++ [p]
    /\ isInPeak (step data sampleRate threshold st i rms) = false
    /\ (inject_Z (lastPeakIndex (step data sampleRate threshold st i rms))
        / inject_Z sampleRate == end_ p)%Q.
Proof.
  intros Hrate Hin Hle.
  pose proof (minSegment_le_maxSegment sampleRate Hrate) as Hmm.
  unfold step. rewrite Hin, (leb_not_ltb _ _ Hle), Hle. simpl.
  set (e0 := Z.min (i + postPeakBufferSamples sampleRate) (JS.length data)).
  set (e1 := if e0 - peakStartIndex st <? minSegmentSamples sampleRate
             then peakStartIndex st + minSegmentSamples sampleRate else e0).
  set (e2 := if maxSegmentSamples sampleRate <? e1 - peakStartIndex st
             then peakStartIndex st + maxSegmentSamples sampleRate else e1).
  assert (Hkeep : (minSegmentSamples sampleRate <=? e2 - peakStartIndex st) = true).
  { apply Z.leb_le. unfold e2, e1.
    destruct (Z.ltb_spec (e0 - peakStartIndex st) (minSegmentSamples sampleRate));
      match goal with |- context [?a <? ?b] => destruct (Z.ltb_spec a b) end; lia. }
  rewrite Hkeep. simpl. eexists. split; [reflexivity|]. split; reflexivity.
Qed.

Lemma step_leaving_emits_witness :
  exists p,
    peaks (step twoBurstsData 1000 defaultThreshold insideFirstBurst 120 zero)
    = peaks insideFirstBurst ++ [p]
    /\ isInPeak (step twoBurstsData 1000 defaultThreshold insideFirstBurst 120 zero)
       = false
    /\ (inject_Z (lastPeakIndex
                    (step twoBurstsData 1000 defaultThreshold insideFirstBurst
                       120 zero))
        / inject_Z 1000 == end_ p)%Q.
Proof.
  apply (step_leaving_emits twoBurstsData 1000 defaultThreshold insideFirstBurst
           120 zero).
  - reflexivity.
  - reflexivity.
  - reflexivity.
Defined.

(** ** [calculateRMS] *)

(** X9.  The RMS of a window with no sample, a window of length 0 or one that
    starts at the end of the data, is NaN: the quotient is [0 / 0]. *)
Theorem calculateRMS_empty_window (data : list float) (start length : Z) :
  0 <= start <= JS.length data ->
  length = 0 \/ (start = JS.length data /\ 0 <= length) ->
  is_nan (calculateRMS data start length) = true.
Proof.
  intros Hs Hempty. unfold calculateRMS.
  replace (Z.min (start + length) (JS.length data) - start) with 0 by lia.
  reflexivity.
Qed.

Lemma calculateRMS_empty_window_witness :
  is_nan (calculateRMS [1; 2; 3; 4]%float 4 240) = true.
Proof.
  apply (calculateRMS_empty_window [1; 2; 3; 4]%float 4 240).
  - vm_compute. split; discriminate.
  - right. vm_compute. split; [reflexivity | discriminate].
Defined.

(** X10.  On samples that are numbers, the RMS of a window that starts inside
    the data and has a positive length is a number at or above zero, never
    NaN. *)
Theorem calculateRMS_at_least_zero (data : list float) (start length : Z) :
  Forall (fun x => is_nan x = false) data ->
  0 <= start < JS.length data -> 1 <= length -> JS.length data < 2 ^ 53 ->
  (zero <=? calculateRMS data start length)%float = true.
Proof.
  intros Hnum Hs Hl Hsize.
  pose proof (calculateRMS_notNegative data Hnum start length Hs Hl Hsize) as H.
  rewrite leb_spec, Float64.Prim2SF_zero. unfold SFleb.
  destruct (Prim2SF (calculateRMS data start length)) as [s | [|] | | [|] m e];
    simpl in *; try contradiction; reflexivity.
Qed.

Lemma calculateRMS_at_least_zero_witness :
  (zero <=? calculateRMS [1; 2; 3; 4]%float 0 2)%float = true.
Proof.
  apply (calculateRMS_at_least_zero [1; 2; 3; 4]%float 0 2).
  - repeat constructor.
  - vm_compute. split; [discriminate | reflexivity].
  - vm_compute. discriminate.
  - reflexivity.
Defined.

(** ** [sliceAudio] *)






(** X12.  A range of less than one sample makes [sliceAudio] throw
    [NotSupportedError]: when the binary64 product
    [(end - start) * sampleRate] is at least 0 and below 1, as it is from
    3 / 48000 s to 4 / 48000 s at 48000 Hz, [createBuffer] is asked for a
    buffer of no frame, before any sample is read. *)
Theorem sliceAudio_short_range (audioBuffer : AudioBuffer) (start end_ : float) :
  (0 <=? (end_ - start) * JS.of_Z (sampleRate audioBuffer))%float = true ->
  ((end_ - start) * JS.of_Z (sampleRate audioBuffer) <? 1)%float = true ->
  sliceAudio audioBuffer start end_ = Throw NotSupportedError.
Proof.
  intros Hlow Hhigh. apply sliceAudio_empty_range.
  rewrite (Math_floor_below_one _ Hlow Hhigh). reflexivity.
Qed.

Lemma sliceAudio_short_range_witness :
  sliceAudio fourSamples (number64 (3 # 48000)) (number64 (4 # 48000))
  = Throw NotSupportedError.
Proof.
  apply (sliceAudio_short_range fourSamples (number64 (3 # 48000))
           (number64 (4 # 48000))).
  - vm_compute. reflexivity.
  - vm_compute. reflexivity.
Defined.

(** ** [audioBufferToWav] and [writeString] *)

(** X13.  [audioBufferToWav] throws nothing: every store lies inside the
    buffer it allocated.  The blob has 44 bytes of header and two bytes for
    each sample of each channel. *)
Theorem audioBufferToWav_size (buffer : AudioBuffer) :
  exists wav,
    audioBufferToWav buffer = Ok wav
    /\ DataView.byteLength wav = 44 + frames buffer * numberOfChannels buffer * 2.
Proof.
  eexists. split; [apply audioBufferToWav_bytes|].
  unfold DataView.byteLength.
  rewrite length_app, Nat2Z.inj_add, wavHeader_length, wavData_length. lia.
Qed.

Ltac header_field :=
  unfold DataView.getUint32, DataView.getUint16;
  rewrite get_prefix by (rewrite ?wavHeader_length; lia);
  first [ apply (f_equal Ok); apply uint32_value
        | apply (f_equal Ok); apply uint16_value ].

(** X14.  The header of the blob, read back field by field: the tags [RIFF],
    [WAVE], [fmt ] and [data], a format chunk of 16 bytes, format 1 (PCM),
    the number of channels, the sample rate, the byte rate
    [sampleRate * 2 * numberOfChannels], the block size
    [numberOfChannels * 2], 16 bits per sample, and the sizes [36 + length]
    and [length], where [length] is the number of bytes of audio data.  The
    fields of 32 bits hold their value modulo 2^32, those of 16 bits modulo
    2^16. *)
Theorem audioBufferToWav_header (buffer : AudioBuffer) (wav : list Z) :
  audioBufferToWav buffer = Ok wav ->
  let length := frames buffer * numberOfChannels buffer * 2 in
  firstn 4 wav = charCodes "RIFF"
  /\ DataView.getUint32 wav 4 = Ok ((36 + length) mod 2 ^ 32)
  /\ firstn 8 (skipn 8 wav) = charCodes "WAVEfmt "
  /\ DataView.getUint32 wav 16 = Ok 16
  /\ DataView.getUint16 wav 20 = Ok 1
  /\ DataView.getUint16 wav 22 = Ok (numberOfChannels buffer mod 2 ^ 16)
  /\ DataView.getUint32 wav 24 = Ok (sampleRate buffer mod 2 ^ 32)
  /\ DataView.getUint32 wav 28
     = Ok ((sampleRate buffer * 2 * numberOfChannels buffer) mod 2 ^ 32)
  /\ DataView.getUint16 wav 32 = Ok ((numberOfChannels buffer * 2) mod 2 ^ 16)
  /\ DataView.getUint16 wav 34 = Ok 16
  /\ firstn 4 (skipn 36 wav) = charCodes "data"
  /\ DataView.getUint32 wav 40 = Ok (length mod 2 ^ 32).
Proof.
  intros Hwav length. rewrite (audioBufferToWav_Ok _ _ Hwav). fold length.
  repeat match goal with |- _ /\ _ => split end;
    first [reflexivity | header_field].
Qed.

Lemma audioBufferToWav_header_witness :
  firstn 4 stereoRampWav = charCodes "RIFF"
  /\ DataView.getUint32 stereoRampWav 4 = Ok 52
  /\ firstn 8 (skipn 8 stereoRampWav) = charCodes "WAVEfmt "
  /\ DataView.getUint32 stereoRampWav 16 = Ok 16
  /\ DataView.getUint16 stereoRampWav 20 = Ok 1
  /\ DataView.getUint16 stereoRampWav 22 = Ok 2
  /\ DataView.getUint32 stereoRampWav 24 = Ok 44100
  /\ DataView.getUint32 stereoRampWav 28 = Ok 176400
  /\ DataView.getUint16 stereoRampWav 32 = Ok 4
  /\ DataView.getUint16 stereoRampWav 34 = Ok 16
  /\ firstn 4 (skipn 36 stereoRampWav) = charCodes "data"
  /\ DataView.getUint32 stereoRampWav 40 = Ok 16.
Proof.
  apply (audioBufferToWav_header stereoRamp stereoRampWav).
  vm_compute. reflexivity.
Defined.

(** X15.  In a blob of less than 2^32 bytes, the two sizes that the header
    declares are right: the RIFF chunk size is the size of the blob less 8,
    and the data chunk size is the size of the blob less the 44 bytes of the
    header. *)
Theorem audioBufferToWav_declared_sizes (buffer : AudioBuffer) (wav : list Z) :
  audioBufferToWav buffer = Ok wav ->
  DataView.byteLength wav < 2 ^ 32 ->
  DataView.getUint32 wav 4 = Ok (DataView.byteLength wav - 8)
  /\ DataView.getUint32 wav 40 = Ok (DataView.byteLength wav - 44).
Proof.
  intros Hwav. rewrite (audioBufferToWav_Ok _ _ Hwav).
  unfold DataView.byteLength at 1 2 3.
  rewrite length_app, Nat2Z.inj_add, wavHeader_length, wavData_length.
  pose proof (frames_nonneg buffer) as Hf.
  assert (HC : 0 <= numberOfChannels buffer) by (unfold numberOfChannels; lia).
  set (L := frames buffer * numberOfChannels buffer * 2).
  assert (HL : 0 <= L) by (unfold L; nia).
  intros Hsize. unfold DataView.getUint32.
  rewrite !get_prefix by (rewrite ?wavHeader_length; lia).
  split; apply (f_equal Ok).
  - change (DataView.fromLittleEndian (uint32 (36 + L)) = 44 + L - 8).
    rewrite uint32_value, Z.mod_small; lia.
  - change (DataView.fromLittleEndian (uint32 L) = 44 + L - 44).
    rewrite uint32_value, Z.mod_small; lia.
Qed.

Lemma audioBufferToWav_declared_sizes_witness :
  DataView.getUint32 stereoRampWav 4 = Ok 52
  /\ DataView.getUint32 stereoRampWav 40 = Ok 16.
Proof.
  apply (audioBufferToWav_declared_sizes stereoRamp stereoRampWav).
  - vm_compute. reflexivity.
  - reflexivity.
Defined.

(** X16.  The samples are interleaved, frame by frame: the 16 bits at byte
    [44 + 2 * (pos * numberOfChannels + i)] are the sample of channel [i] at
    position [pos], clamped to [-1, 1], scaled, truncated, and kept modulo
    2^16 in two's complement. *)
Theorem audioBufferToWav_sample
    (buffer : AudioBuffer) (wav : list Z) (channelData : list float) (i pos : Z) :
  audioBufferToWav buffer = Ok wav ->
  0 <= pos < frames buffer ->
  0 <= i ->
  nth_error (channels buffer) (Z.to_nat i) = Some channelData ->
  DataView.getInt16 wav (44 + 2 * (pos * numberOfChannels buffer + i))
  = Ok (DataView.toInt16 (truncate (scaleSample (JS.get channelData pos))
                          mod 2 ^ 16)).
Proof.
  intros Hwav Hpos Hi Hc. rewrite (audioBufferToWav_Ok _ _ Hwav).
  destruct (wavData_sample buffer channelData (Z.to_nat i) (Z.to_nat pos)
              ltac:(lia) Hc) as [rest Hrest].
  rewrite Z2Nat.id in Hrest by lia.
  unfold DataView.getInt16, numberOfChannels.
  replace (44 + 2 * (pos * Z.of_nat (List.length (channels buffer)) + i))
    with (Z.of_nat (List.length (wavHeader (Z.of_nat (List.length (channels buffer)))
                                   (sampleRate buffer)
                                   (frames buffer
                                    * Z.of_nat (List.length (channels buffer)) * 2))
                    + 2 * (Z.to_nat pos * List.length (channels buffer) + Z.to_nat i)))
    by (rewrite wavHeader_length; lia).
  rewrite get_suffix.
  rewrite (get_at _ _ rest _ 2%nat Hrest)
    by (try (unfold sampleBytes, uint16; apply littleEndian_length); lia).
  cbn [bind]. unfold sampleBytes. rewrite uint16_value. reflexivity.
Qed.

Lemma audioBufferToWav_sample_witness :
  DataView.getInt16 stereoRampWav 54 = Ok 32767.
Proof.
  apply (audioBufferToWav_sample stereoRamp stereoRampWav
           [-1; 0.25; 2; -0.25]%float 1 2).
  - vm_compute. reflexivity.
  - vm_compute. split; [discriminate | reflexivity].
  - vm_compute. discriminate.
  - reflexivity.
Defined.

(** X17.  A sample at or above 1, [+Infinity] included, is written as 32767,
    the bytes [FF 7F]. *)
Theorem scaleSample_clips_above (x : float) :
  (1 <=? x)%float = true ->
  truncate (scaleSample (Some x)) = 32767
  /\ sampleBytes (Some x) = [255; 127].
Proof.
  intros H. unfold sampleBytes, scaleSample. cbn [JS.toNumber].
  rewrite (Math_min_one x H). split; reflexivity.
Qed.

Lemma scaleSample_clips_above_witness :
  truncate (scaleSample (Some 2%float)) = 32767
  /\ sampleBytes (Some 2%float) = [255; 127].
Proof.
  apply (scaleSample_clips_above 2). reflexivity.
Defined.

(** X18.  A sample at or below -1, [-Infinity] included, is written as
    -32768, the bytes [00 80]. *)
Theorem scaleSample_clips_below (x : float) :
  (x <=? -1)%float = true ->
  truncate (scaleSample (Some x)) = -32768
  /\ sampleBytes (Some x) = [0; 128].
Proof.
  intros H. unfold sampleBytes, scaleSample. cbn [JS.toNumber].
  rewrite (clamp_minus_one x H). split; reflexivity.
Qed.

Lemma scaleSample_clips_below_witness :
  truncate (scaleSample (Some (-3)%float)) = -32768
  /\ sampleBytes (Some (-3)%float) = [0; 128].
Proof.
  apply (scaleSample_clips_below (-3)). reflexivity.
Defined.

(** X19.  A zero of either sign, NaN, and a sample that is not there (a read
    past the end of a channel) are all written as 0: what [sliceAudio] read
    past the end of the buffer is silence in the file. *)
Theorem scaleSample_silent (x : option float) :
  isZeroOrNaN (Prim2SF (JS.toNumber x)) ->
  truncate (scaleSample x) = 0 /\ sampleBytes x = [0; 0].
Proof.
  intros H. destruct x as [x|]; [|split; reflexivity].
  cbn [JS.toNumber] in H.
  destruct (Prim2SF x) as [s | | |] eqn:E; try contradiction.
  - assert (Hx : x = (if s then neg_zero else zero)).
    { apply Prim2SF_inj. rewrite E. destruct s; reflexivity. }
    rewrite Hx. destruct s; split; reflexivity.
  - assert (Hx : x = nan) by (apply Prim2SF_inj; rewrite E; reflexivity).
    rewrite Hx. split; reflexivity.
Qed.

Lemma scaleSample_silent_witness :
  truncate (scaleSample (JS.get [1; 2; 3; 4]%float 4)) = 0
  /\ sampleBytes (JS.get [1; 2; 3; 4]%float 4) = [0; 0].
Proof.
  apply (scaleSample_silent (JS.get [1; 2; 3; 4]%float 4)).
  vm_compute. exact I.
Defined.

(** X20.  [writeString] stores the character codes of the string from
    [offset] on, one byte each, and changes no other byte, when the string
    fits in the view. *)
Theorem writeString_writes (view : list Z) (offset : Z) (s : string) :
  0 <= offset ->
  offset + Z.of_nat (String.length s) <= DataView.byteLength view ->
  writeString view offset s
  = Ok (firstn (Z.to_nat offset) view ++ charCodes s
        ++ skipn (Z.to_nat offset + String.length s) view).
Proof.
  intros Ho Hfit. unfold DataView.byteLength in Hfit. unfold writeString.
  rewrite <- (firstn_skipn (Z.to_nat offset) view) at 1.
  rewrite <- (firstn_skipn (String.length s) (skipn (Z.to_nat offset) view)) at 1.
  rewrite skipn_skipn, (Nat.add_comm (String.length s)).
  apply (writeStringFrom_middle offset s (String.length s) 0).
  - reflexivity.
  - rewrite length_firstn. lia.
  - rewrite length_firstn, length_skipn. lia.
Qed.

Lemma writeString_writes_witness :
  writeString (repeat 0 8) 2 "data" = Ok [0; 0; 100; 97; 116; 97; 0; 0].
Proof.
  apply (writeString_writes (repeat 0 8) 2 "data").
  - vm_compute. discriminate.
  - vm_compute. discriminate.
Defined.

(** X21.  [writeString] checks no bound itself: when a string that is not
    empty starts before the view or ends after it, a store of [DataView]
    throws [RangeError]. *)
Theorem writeString_out_of_range (view : list Z) (offset : Z) (s : string) :
  s <> EmptyString ->
  offset < 0 \/ DataView.byteLength view < offset + Z.of_nat (String.length s) ->
  writeString view offset s = Throw RangeError.
Proof.
  intros Hs Hout. unfold writeString. apply writeStringFrom_out_of_range.
  - destruct s; [contradiction Hs; reflexivity | simpl; lia].
  - lia.
Qed.

Lemma writeString_out_of_range_witness :
  writeString (repeat 0 4) 2 "data" = Throw RangeError.
Proof.
  apply (writeString_out_of_range (repeat 0 4) 2 "data").
  - discriminate.
  - right. vm_compute. reflexivity.
Defined.

(** ** [processAudio] *)


